(** * Witness Field: the witness store, its proof-of-work gate, decay,
      merge-on-load and eviction, embedded from the TypeScript sources.

    Three revisions of the store live in the repository and are embedded
    side by side, each in its own module:

    - [Store]: the store with relay, tab and peer channels
      (computeProofOfWork, verifyProofOfWork, calculateCurrentWitnessCount,
      calculateExpiration, reWitness, loadWitnessData and the periodic
      cleanup inside initializeStore);
    - [BoundedStore]: the later revision of the same file, which adds
      MAX_WITNESSES_IN_MEMORY, the unsigned hash encoding and the
      capacity trim in cleanupTimer;
    - [Emergency]: witnessStore-emergency.ts (emergencyCleanup).

    Conventions of the embedding.
    - A JavaScript number that holds a timestamp, a count or a nonce is an
      integer and is a [Z]; coordinates and entropy seeds are fractions and
      are a [Q].  An optional or nullable field is an [option].
    - A JavaScript string is a [string]; charCodeAt is the character code,
      so texts are those whose code units are below 256.
    - Date.now() is a parameter: every synchronous handler runs at one
      clock reading [now]; code separated by an await gets separate
      readings.  Math.random() is a parameter as well.
    - console output is not state; the branch a handler takes is returned
      as an outcome value where a property speaks about it.
    - The store is a list of Witness objects, as its type in the sources
      says.  The one place where the code hands another object to the store
      is the legacy string branch of loadWitnessData, which checks no field
      of the parsed value: the embedding follows such an object (undefined
      fields and a NaN count are [None]) up to the store update and returns
      it in the outcome [NotAWitness]. *)

From Stdlib Require Import ZArith QArith List String Ascii Bool Lia.
From Stdlib Require Import Permutation Sorted.
Import ListNotations.
Open Scope string_scope.
Open Scope Z_scope.

(** ** JavaScript primitives *)

Module JS.

(** ToInt32: the signed 32-bit reading of an integer-valued number. *)
Definition toInt32 (x : Z) : Z := (x + 2 ^ 31) mod 2 ^ 32 - 2 ^ 31.

(** ToUint32, as computed by [x >>> 0]. *)
Definition toUint32 (x : Z) : Z := x mod 2 ^ 32.

(** [a & b] on numbers. *)
Definition bitand (a b : Z) : Z := toInt32 (Z.land (toInt32 a) (toInt32 b)).

(** [a << n] on numbers, for a shift count below 32. *)
Definition shl (a n : Z) : Z := toInt32 (Z.shiftl (toInt32 a) n).

(** The double nearest to an integer, ties to even: numbers are IEEE-754
    doubles with a 53-bit significand, so an integer result of [*] or [+]
    beyond 2^53 is rounded. *)
Definition round53 (x : Z) : Z :=
  let a := Z.abs x in
  let e := Z.log2 a - 52 in
  if e <=? 0 then x
  else
    let q := Z.shiftr a e in
    let r := a - Z.shiftl q e in
    let half := Z.shiftl 1 (e - 1) in
    let q' := if r <? half then q
              else if half <? r then q + 1
              else if Z.even q then q else q + 1 in
    Z.sgn x * Z.shiftl q' e.

Definition mul (a b : Z) : Z := round53 (a * b).
Definition add (a b : Z) : Z := round53 (a + b).

(** Digits of a non-negative integer in a radix up to 16, lower case. *)
Definition digitChar (d : Z) : ascii :=
  if d <? 10 then ascii_of_N (Z.to_N (48 + d)) else ascii_of_N (Z.to_N (87 + d)).

Fixpoint digitsFrom (fuel : nat) (radix n : Z) (acc : string) : string :=
  match fuel with
  | O => acc
  | S fuel' =>
      let acc' := String (digitChar (n mod radix)) acc in
      if n / radix =? 0 then acc' else digitsFrom fuel' radix (n / radix) acc'
  end.

(** Number.prototype.toString(radix) on an integer: sign and magnitude. *)
Definition toStringRadix (radix n : Z) : string :=
  let a := Z.abs n in
  let ds := digitsFrom (S (Z.to_nat (Z.log2 a))) radix a EmptyString in
  if n <? 0 then String "-" ds else ds.

(** String(n), as in [text + nonce], for an integer below 10^21. *)
Definition numberToString (n : Z) : string := toStringRadix 10 n.

(** [n.toString(16)]. *)
Definition toString16 (n : Z) : string := toStringRadix 16 n.

Definition charCode (c : ascii) : Z := Z.of_N (N_of_ascii c).

(** White space removed by String.prototype.trim, among code units below 256:
    tab, line feed, vertical tab, form feed, carriage return, space and the
    no-break space. *)
Definition isWhite (c : ascii) : bool :=
  let n := charCode c in
  ((9 <=? n) && (n <=? 13)) || (n =? 32) || (n =? 160).

Fixpoint trimStart (s : string) : string :=
  match s with
  | String c s' => if isWhite c then trimStart s' else s
  | EmptyString => EmptyString
  end.

Fixpoint rev (s : string) (acc : string) : string :=
  match s with
  | String c s' => rev s' (String c acc)
  | EmptyString => acc
  end.

Definition trim (s : string) : string :=
  rev (trimStart (rev (trimStart s) EmptyString)) EmptyString.

(** [s.startsWith(p)]. *)
Definition startsWith (p s : string) : bool := String.prefix p s.

(** [s.includes(p)]. *)
Fixpoint includes (p s : string) : bool :=
  String.prefix p s ||
  match s with
  | String _ s' => includes p s'
  | EmptyString => false
  end.

Definition isDigit (c : ascii) : bool :=
  let n := charCode c in (48 <=? n) && (n <=? 57).

Fixpoint dropDigits (s : string) : string :=
  match s with
  | String c s' => if isDigit c then dropDigits s' else s
  | EmptyString => EmptyString
  end.

(** [s.match(/-v\d+$/)] as a boolean: the string ends with "-v" followed
    by one or more digits. *)
Definition matchesVersionSuffix (s : string) : bool :=
  match rev s EmptyString with
  | String c r =>
      isDigit c &&
      match dropDigits r with
      | String v (String dash _) => Ascii.eqb v "v" && Ascii.eqb dash "-"
      | _ => false
      end
  | EmptyString => false
  end.

(** Truthiness of the values that occur in the stores. *)
Definition truthyNum (x : option Z) : bool :=
  match x with Some n => negb (n =? 0) | None => false end.

Definition truthyFrac (x : option Q) : bool :=
  match x with Some q => negb (Qnum q =? 0) | None => false end.

Definition truthyStr (x : option string) : bool :=
  match x with Some s => negb (String.eqb s "") | None => false end.

(** [x || d] on an optional number. *)
Definition orNum (x : option Z) (d : Z) : Z :=
  match x with Some n => if n =? 0 then d else n | None => d end.

End JS.

(** ** The witness record (types.ts) *)

Record Proof := mkProof { nonce : Z; hash : string }.

Record Position := mkPosition { x : Q; y : Q }.

Record Metadata := mkMetadata {
  entropySeed : option Q;
  contextTag : option string;
  position : option Position;
  lastUpdate : option Z
}.

Record Witness := mkWitness {
  id : string;
  text : string;
  createdAt : Z;
  expiresAt : Z;
  witnessCount : Z;
  lastWitnessed : Z;
  contextOf : option string;
  proof : option Proof;
  metadata : Metadata
}.

(** ** The proof-of-work hash shared by both revisions *)

Module Pow.

(** [for (j...) hash = ((hash << 5) - hash + data.charCodeAt(j)) & 0xffffffff] *)
Fixpoint rollingHash (data : string) (h : Z) : Z :=
  match data with
  | EmptyString => h
  | String c rest =>
      rollingHash rest (JS.bitand (JS.shl h 5 - h + JS.charCode c) 4294967295)
  end.

(** [hash = (hash * 1103515245 + 12345) & 0xffffffff] *)
Definition mixRound (h : Z) : Z :=
  JS.bitand (JS.add (JS.mul h 1103515245) 12345) 4294967295.

(** [for (k = 0; k < 10000; k++) ...] *)
Definition mixRounds (h : Z) : Z := N.iter 10000 mixRound h.

(** The block both computeProofOfWork and verifyProofOfWork run for a text
    and a nonce: [data = text + nonce], [hash = 0], then the two loops. *)
Definition accumulate (text : string) (nonce : Z) : Z :=
  let data := text ++ JS.numberToString nonce in
  mixRounds (rollingHash data 0).

End Pow.

(** ** What travels: relay records and channel messages *)

(** The flat record written to and delivered by the relay node
    ([gunData] in the source); every field may be missing on delivery. *)
Record GunData := mkGunData {
  g_id : option string;
  g_text : option string;
  g_createdAt : option Z;
  g_expiresAt : option Z;
  g_witnessCount : option Z;
  g_lastWitnessed : option Z;
  g_contextOf : option string;
  g_proofNonce : option Z;
  g_proofHash : option string;
  g_entropySeed : option Q;
  g_contextTag : option string;
  g_positionX : option Q;
  g_positionY : option Q;
  g_lastUpdate : option Z;
  g_updateSeq : option Z
}.

(** The value a legacy JSON string parses to.  JSON.parse returns any
    value and the listener checks none of its fields: each one is there
    with the type the Witness interface gives it, or it is undefined. *)
Record RawWitness := mkRawWitness {
  raw_id : option string;
  raw_text : option string;
  raw_createdAt : option Z;
  raw_expiresAt : option Z;
  raw_witnessCount : option Z;
  raw_lastWitnessed : option Z;
  raw_contextOf : option string;
  raw_forkOf : option string;
  raw_proof : option Proof;
  raw_metadata : option Metadata
}.

(** The object the legacy branch of loadWitnessData builds from the parsed
    value.  It is a Witness only when the string carried [id], [text],
    [createdAt] and [expiresAt]; a field the string lacks is undefined here
    ([None]), and [l_witnessCount] is [None] when the count is NaN. *)
Record LegacyWitness := mkLegacyWitness {
  l_id : option string;
  l_text : option string;
  l_createdAt : option Z;
  l_expiresAt : option Z;
  l_witnessCount : option Z;
  l_lastWitnessed : option Z;
  l_contextOf : option string;
  l_proof : option Proof;
  l_metadata : Metadata
}.

(** A value handed to the relay listener: nothing (null, undefined or any
    other falsy value), a string (with the value JSON.parse yields, or [None]
    when JSON.parse throws or yields null, whose fields cannot be read), an
    object, or some other truthy value. *)
Inductive GunValue :=
| GNothing
| GString (parsed : option RawWitness)
| GObject (data : GunData)
| GOther.

(** Messages on the tab channel and on the peer data channels. *)
Inductive Message :=
| NEW_WITNESS (data : Witness)
| UPDATE_WITNESS (data : Witness).

(** Everything a store module owns or writes to. *)
Record World := mkWorld {
  witnesses : list Witness;              (* the writable store *)
  gunPuts : list (string * GunData);     (* fieldNode.get(key).put(data), in order *)
  syncChannel : bool;                    (* a BroadcastChannel exists *)
  tabPosts : list Message;               (* syncChannel.postMessage, in order *)
  peerSends : list Message;              (* broadcastToWebRTCPeers, in order *)
  proofsComputed : list (string * Proof) (* resolved computeProofOfWork calls *)
}.

Definition setWitnesses (ws : list Witness) (w : World) : World :=
  mkWorld ws (gunPuts w) (syncChannel w) (tabPosts w) (peerSends w) (proofsComputed w).

(** A resolved proof-of-work computation, noted in the world. *)
Definition proofComputed (payload : string) (p : Proof) (w : World) : World :=
  mkWorld (witnesses w) (gunPuts w) (syncChannel w) (tabPosts w) (peerSends w)
          (proofsComputed w ++ [(payload, p)]).

Definition findById (wid : string) (current : list Witness) : option Witness :=
  find (fun w => String.eqb (id w) wid) current.

Definition withCount (w : Witness) (n : Z) : Witness :=
  mkWitness (id w) (text w) (createdAt w) (expiresAt w) n (lastWitnessed w)
            (contextOf w) (proof w) (metadata w).

(** ** The store with relay, tab and peer channels *)

Module Store.

Definition DEV_MODE : bool := false.

(** computeProofOfWork.  [clock 0] is the reading taken for [startTime];
    [clock (S i)] is the reading of the time check that ends iteration [i].
    The batches of 1000 iterations only yield to the event loop between
    them, so the iterations form one loop; [fuel] bounds their number. *)
Fixpoint computeLoop (fuel : nat) (clock : nat -> Z) (startTime : Z)
    (text : string) (nonce : Z) (i : nat) : option Proof :=
  match fuel with
  | O => None
  | S fuel' =>
      let hashValue := Pow.accumulate text nonce in
      let nonce := nonce + 1 in
      if clock (S i) - startTime >=? 1000
      then Some (mkProof nonce (JS.toString16 hashValue))
      else computeLoop fuel' clock startTime text nonce (S i)
  end.

Definition computeProofOfWork (fuel : nat) (clock : nat -> Z) (text : string)
    : option Proof :=
  computeLoop fuel clock (clock 0%nat) text 0 0.

(** verifyProofOfWork *)
Definition verifyProofOfWork (text : string) (proof : Proof) : bool :=
  let hashValue := Pow.accumulate text (nonce proof) in
  String.eqb (JS.toString16 hashValue) (hash proof).

(** calculateCurrentWitnessCount; Math.floor of the quotient is [/] on [Z]
    for the positive decay interval. *)
Definition calculateCurrentWitnessCount (now : Z) (witness : Witness) : Z :=
  let timeSinceLastWitness := now - lastWitnessed witness in
  if DEV_MODE then
    let decayInterval := 45 * 1000 in
    let decaySteps := timeSinceLastWitness / decayInterval in
    Z.max 1 (witnessCount witness - decaySteps)
  else
    let decayInterval := 2 * 60 * 1000 in
    let decaySteps := timeSinceLastWitness / decayInterval in
    Z.max 1 (witnessCount witness - decaySteps).

(** calculateExpiration; the lifetime is a multiple of 5, so the factor 0.8
    gives the integer written [* 4 / 5]. *)
Definition calculateExpiration (now witnessCount lastWitnessed : Z) : Z :=
  if DEV_MODE then
    let baseLifetime := 90 * 1000 in
    let entropyBonus := Z.min (witnessCount * 20 * 1000) (3 * 60 * 1000) in
    let timeSinceLastWitness := now - lastWitnessed in
    if timeSinceLastWitness >? 30 * 1000
    then lastWitnessed + (baseLifetime + entropyBonus) * 4 / 5
    else lastWitnessed + (baseLifetime + entropyBonus)
  else
    let baseLifetime := 5 * 60 * 1000 in
    let entropyBonus := Z.min (witnessCount * 15 * 1000) (10 * 60 * 1000) in
    let timeSinceLastWitness := now - lastWitnessed in
    if timeSinceLastWitness >? 5 * 60 * 1000
    then lastWitnessed + (baseLifetime + entropyBonus) * 4 / 5
    else lastWitnessed + (baseLifetime + entropyBonus).

(** getActiveWitnesses *)
Definition getActiveWitnesses (now : Z) (witnessArray : list Witness) : list Witness :=
  filter (fun w => expiresAt w >? now) witnessArray.

(** [x || null] on the fields written to the relay. *)
Definition orNullStr (s : option string) : option string :=
  if JS.truthyStr s then s else None.

Definition orNullNum (n : option Z) : option Z :=
  if JS.truthyNum n then n else None.

Definition orNullFrac (q : option Q) : option Q :=
  if JS.truthyFrac q then q else None.

(** The [gunData] literal of reWitness. *)
Definition gunDataOf (w : Witness) (lastUpdate : Z) : GunData :=
  mkGunData
    (Some (id w)) (Some (text w)) (Some (createdAt w)) (Some (expiresAt w))
    (Some (witnessCount w)) (Some (lastWitnessed w))
    (orNullStr (contextOf w))
    (orNullNum (option_map nonce (proof w)))
    (orNullStr (option_map hash (proof w)))
    (entropySeed (metadata w))
    (orNullStr (contextTag (metadata w)))
    (orNullFrac (option_map x (position (metadata w))))
    (orNullFrac (option_map y (position (metadata w))))
    (Some lastUpdate)
    (Some (witnessCount w)).

(** The object built for a matching witness inside reWitness's update:
    a spread of [w] with three fields replaced. *)
Definition bump (now : Z) (w : Witness) : Witness :=
  let newWitnessCount := witnessCount w + 1 in
  mkWitness (id w) (text w) (createdAt w)
            (calculateExpiration now newWitnessCount now)
            newWitnessCount now
            (contextOf w) (proof w) (metadata w).

(** [updatedWitness] after the map: the object built for the last match. *)
Definition lastBumped (now : Z) (witnessId : string) (current : list Witness)
    : option Witness :=
  fold_left
    (fun acc w => if String.eqb (id w) witnessId then Some (bump now w) else acc)
    current None.

(** reWitness after the await: the store update, the two broadcasts and
    the two relay puts, at clock reading [t1]. *)
Definition afterProof (t1 : Z) (witnessId : string) (world : World) : World :=
  let current := witnesses world in
  let updated :=
    map (fun w => if String.eqb (id w) witnessId then bump t1 w else w) current in
  match lastBumped t1 witnessId current with
  | None => setWitnesses updated world
  | Some updatedWitness =>
      let gunData := gunDataOf updatedWitness t1 in
      let versionedKey :=
        witnessId ++ "-v" ++ JS.numberToString (witnessCount updatedWitness) in
      mkWorld updated
        (gunPuts world ++ [(witnessId, gunData); (versionedKey, gunData)])
        (syncChannel world)
        (if syncChannel world
         then (tabPosts world ++ [UPDATE_WITNESS updatedWitness])%list
         else tabPosts world)
        (peerSends world ++ [UPDATE_WITNESS updatedWitness])
        (proofsComputed world)
  end.

(** reWitness.  [t0] is the clock reading before the await, [clock] drives
    the proof of work, [during] is what other handlers do to the world while
    the proof is computed, [t1] is the reading after the await.  [None]: the
    proof of work did not resolve within [fuel]. *)
Definition reWitness (fuel : nat) (clock : nat -> Z) (t0 t1 : Z)
    (during : World -> World) (witnessId : string) (world : World)
    : option World :=
  match findById witnessId (witnesses world) with
  | None => Some world
  | Some _ =>
      let validationData :=
        "rewitness:" ++ witnessId ++ ":" ++ JS.numberToString t0 in
      match computeProofOfWork fuel clock validationData with
      | None => None
      | Some proof =>
          Some (afterProof t1 witnessId
                  (during (proofComputed validationData proof world)))
      end
  end.

(** The branch taken by the relay listener (its log line, or the silent
    return). *)
Inductive LoadOutcome :=
| NoData            (* if (!data) return *)
| SystemKey         (* signalling and presence keys *)
| VersionedCopy     (* 'Skipping versioned copy' *)
| ParseFailed       (* 'Failed to parse witness data' *)
| Incomplete        (* 'Skipping incomplete witness data' *)
| InvalidFormat     (* 'Skipping invalid data format' *)
| InvalidPoW        (* 'Skipping witness with invalid PoW' *)
| Loaded            (* 'Loaded new witness from Gun.js' *)
| Updated           (* 'Updated witness from Gun.js' *)
| Unchanged         (* return current *)
| ExpiredNotLoaded  (* 'Witness expired, not loading' *)
| NotAWitness (built : LegacyWitness).
    (* the object handed to the store update from a legacy string lacks a
       field of Witness; [mergeLegacy] is what the update does with it *)

Definition isSystemKey (key : string) : bool :=
  String.eqb key "webrtc-signaling" || String.eqb key "peers" ||
  JS.startsWith "webrtc-" key || JS.startsWith "peer-" key.

Definition isVersionedCopy (key : string) : bool :=
  JS.includes "-v" key && JS.matchesVersionSuffix key.

(** The object built from the legacy JSON string format: the fields are
    copied as they come, with [witnessCount || 1] and
    [lastWitnessed || createdAt]. *)
Definition fromRaw (random : Q) (rawWitness : RawWitness) : LegacyWitness :=
  let seed := match raw_metadata rawWitness with
              | Some m => entropySeed m
              | None => None
              end in
  mkLegacyWitness
    (raw_id rawWitness) (raw_text rawWitness)
    (raw_createdAt rawWitness) (raw_expiresAt rawWitness)
    (Some (JS.orNum (raw_witnessCount rawWitness) 1))
    (if JS.truthyNum (raw_lastWitnessed rawWitness)
     then raw_lastWitnessed rawWitness else raw_createdAt rawWitness)
    (if JS.truthyStr (raw_contextOf rawWitness) then raw_contextOf rawWitness
     else orNullStr (raw_forkOf rawWitness))
    (raw_proof rawWitness)
    (mkMetadata
       (if JS.truthyFrac seed then seed else Some random)
       (match raw_metadata rawWitness with Some m => contextTag m | None => None end)
       (match raw_metadata rawWitness with Some m => position m | None => None end)
       None).

(** The built object as a Witness, when no field of the interface is
    undefined. *)
Definition asWitness (built : LegacyWitness) : option Witness :=
  match l_id built, l_text built, l_createdAt built, l_expiresAt built,
        l_witnessCount built, l_lastWitnessed built with
  | Some i, Some t, Some c, Some e, Some n, Some l =>
      Some (mkWitness i t c e n l (l_contextOf built) (l_proof built)
                      (l_metadata built))
  | _, _, _, _, _, _ => None
  end.

(** The witness built from the object format, once [id], [text], [createdAt]
    and [expiresAt] are known to be truthy. *)
Definition fromObject (random : Q) (data : GunData)
    (did dtext : string) (dcreated dexpires : Z) : Witness :=
  mkWitness
    did dtext dcreated dexpires
    (JS.orNum (g_witnessCount data) 1)
    (JS.orNum (g_lastWitnessed data) dcreated)
    (orNullStr (g_contextOf data))
    (match g_proofNonce data, g_proofHash data with
     | Some n, Some h =>
         if JS.truthyNum (Some n) && JS.truthyStr (Some h)
         then Some (mkProof n h) else None
     | _, _ => None
     end)
    (mkMetadata
       (if JS.truthyFrac (g_entropySeed data) then g_entropySeed data else Some random)
       (orNullStr (g_contextTag data))
       (match g_positionX data, g_positionY data with
        | Some px, Some py =>
            if JS.truthyFrac (Some px) && JS.truthyFrac (Some py)
            then Some (mkPosition px py) else None
        | _, _ => None
        end)
       None).

(** [a > b] on two optional numbers, read only when both are truthy. *)
Definition gtNum (a b : option Z) : bool :=
  match a, b with
  | Some a, Some b => a >? b
  | _, _ => false
  end.

(** The condition of the [else if] in the store update. *)
Definition changed (existing witness : Witness) (dataLastUpdate : option Z) : bool :=
  negb (witnessCount existing =? witnessCount witness) ||
  negb (expiresAt existing =? expiresAt witness) ||
  (JS.truthyNum dataLastUpdate &&
   (negb (JS.truthyNum (lastUpdate (metadata existing))) ||
    gtNum dataLastUpdate (lastUpdate (metadata existing)))).

(** The witness written over the existing one: the local position is kept
    when there is one, and [lastUpdate] is recorded. *)
Definition overwriting (existing witness : Witness) (dataLastUpdate : option Z)
    : Witness :=
  mkWitness (id witness) (text witness) (createdAt witness) (expiresAt witness)
            (witnessCount witness) (lastWitnessed witness)
            (contextOf witness) (proof witness)
            (mkMetadata (entropySeed (metadata witness))
                        (contextTag (metadata witness))
                        (match position (metadata existing) with
                         | Some p => Some p
                         | None => position (metadata witness)
                         end)
                        dataLastUpdate).

(** The callback passed to [witnesses.update]. *)
Definition mergeLoaded (dataLastUpdate : option Z) (witness : Witness)
    (current : list Witness) : list Witness * LoadOutcome :=
  match findById (id witness) current with
  | None => ((current ++ [witness])%list, Loaded)
  | Some existing =>
      if changed existing witness dataLastUpdate then
        let witness := overwriting existing witness dataLastUpdate in
        (map (fun w => if String.eqb (id w) (id witness) then witness else w) current,
         Updated)
      else (current, Unchanged)
  end.

(** From proof verification to the expiry test: the witness (with the
    decayed count written into it) that reaches the store update, or the
    branch that drops it. *)
Definition verifyDecay (now : Z) (witness : Witness) : LoadOutcome + Witness :=
  let invalid := match proof witness with
                 | Some p => negb (verifyProofOfWork (JS.trim (text witness)) p)
                 | None => false
                 end in
  if invalid then inl InvalidPoW
  else
    let effectiveCount := calculateCurrentWitnessCount now witness in
    let witness := if negb (effectiveCount =? witnessCount witness)
                   then withCount witness effectiveCount else witness in
    if expiresAt witness >? now then inr witness else inl ExpiredNotLoaded.

(** [a !== b] on two numbers, [None] standing for NaN (or undefined), which
    differs from every number and from itself. *)
Definition neqNum (a b : option Z) : bool :=
  match a, b with
  | Some m, Some n => negb (m =? n)
  | _, _ => true
  end.

(** calculateCurrentWitnessCount on a built object: it reads [lastWitnessed]
    and [witnessCount] only; [now - undefined] is NaN and so is the result. *)
Definition legacyCount (now : Z) (built : LegacyWitness) : option Z :=
  match l_witnessCount built, l_lastWitnessed built with
  | Some count, Some last =>
      Some (calculateCurrentWitnessCount now
              (mkWitness "" "" 0 0 count last None None (l_metadata built)))
  | _, _ => None
  end.

Definition withLegacyCount (built : LegacyWitness) (count : option Z)
    : LegacyWitness :=
  mkLegacyWitness (l_id built) (l_text built) (l_createdAt built)
                  (l_expiresAt built) count (l_lastWitnessed built)
                  (l_contextOf built) (l_proof built) (l_metadata built).

(** From proof verification to the expiry test for a built object that is
    not a Witness.  With a proof and no text, [witness.text.trim()] throws
    and the catch block logs the failure; [undefined > Date.now()] is
    false. *)
Definition verifyDecayLegacy (now : Z) (built : LegacyWitness) : LoadOutcome :=
  let checked :=
    let effectiveCount := legacyCount now built in
    let built := if neqNum effectiveCount (l_witnessCount built)
                 then withLegacyCount built effectiveCount else built in
    match l_expiresAt built with
    | Some e => if e >? now then NotAWitness built else ExpiredNotLoaded
    | None => ExpiredNotLoaded
    end in
  match l_proof built, l_text built with
  | Some _, None => ParseFailed
  | Some p, Some t =>
      if negb (verifyProofOfWork (JS.trim t) p) then InvalidPoW else checked
  | None, _ => checked
  end.


(** loadWitnessData up to the call of [witnesses.update]: the branch that
    returns early, or the witness handed to the update together with
    [data.lastUpdate]. *)
Definition beforeUpdate (random : Q) (now : Z) (data : GunValue) (key : string)
    : LoadOutcome + (Witness * option Z) :=
  match data with
  | GNothing => inl NoData
  | _ =>
      if isSystemKey key then inl SystemKey
      else if isVersionedCopy key then inl VersionedCopy
      else
        match data with
        | GNothing => inl NoData
        | GString None => inl ParseFailed
        | GString (Some rawWitness) =>
            let built := fromRaw random rawWitness in
            match asWitness built with
            | Some witness =>
                match verifyDecay now witness with
                | inl out => inl out
                | inr witness => inr (witness, None)
                end
            | None => inl (verifyDecayLegacy now built)
            end
        | GObject data =>
            match g_id data with
            | Some did =>
                if JS.truthyStr (Some did) then
                  match g_text data, g_createdAt data, g_expiresAt data with
                  | Some dtext, Some dcreated, Some dexpires =>
                      if JS.truthyStr (Some dtext) && JS.truthyNum (Some dcreated)
                         && JS.truthyNum (Some dexpires)
                      then
                        match verifyDecay now
                                (fromObject random data did dtext dcreated dexpires) with
                        | inl out => inl out
                        | inr witness => inr (witness, g_lastUpdate data)
                        end
                      else inl Incomplete
                  | _, _, _ => inl Incomplete
                  end
                else inl InvalidFormat
            | None => inl InvalidFormat
            end
        | GOther => inl InvalidFormat
        end
  end.

(** loadWitnessData, as a function of the store contents.  The store is a
    list of Witness objects; with the outcome [NotAWitness built] the object
    [built] has been handed to the update, which treats it as [mergeLegacy]
    says, and the list returned is the store before. *)
Definition loadWitnessData (random : Q) (now : Z) (data : GunValue) (key : string)
    (current : list Witness) : list Witness * LoadOutcome :=
  match beforeUpdate random now data key with
  | inl out => (current, out)
  | inr (witness, dataLastUpdate) => mergeLoaded dataLastUpdate witness current
  end.

(** The handler of a tab or peer message. *)
Definition onChannelMessage (m : Message) (current : list Witness) : list Witness :=
  match m with
  | NEW_WITNESS data =>
      match findById (id data) current with
      | None => (current ++ [data])%list
      | Some _ => current
      end
  | UPDATE_WITNESS data =>
      map (fun w => if String.eqb (id w) (id data) then data else w) current
  end.

(** One element of the map in the periodic cleanup. *)
Definition decayed (now : Z) (witness : Witness) : Witness :=
  let effectiveCount := calculateCurrentWitnessCount now witness in
  if negb (effectiveCount =? witnessCount witness)
  then withCount witness effectiveCount
  else witness.

(** The callback of the periodic cleanup (every 10 seconds). *)
Definition cleanupTick (now : Z) (current : list Witness) : list Witness :=
  let updated := map (decayed now) current in
  getActiveWitnesses now updated.

(** getDefaultExpiration *)
Definition getDefaultExpiration (now : Z) : Z :=
  if DEV_MODE then now + 10 * 60 * 1000 else now + 5 * 60 * 1000.

(** The [gunData] literal of addWitness: the fields of reWitness's without
    lastUpdate and updateSeq. *)
Definition gunDataNew (w : Witness) : GunData :=
  mkGunData
    (Some (id w)) (Some (text w)) (Some (createdAt w)) (Some (expiresAt w))
    (Some (witnessCount w)) (Some (lastWitnessed w))
    (orNullStr (contextOf w))
    (orNullNum (option_map nonce (proof w)))
    (orNullStr (option_map hash (proof w)))
    (entropySeed (metadata w))
    (orNullStr (contextTag (metadata w)))
    (orNullFrac (option_map x (position (metadata w))))
    (orNullFrac (option_map y (position (metadata w))))
    None None.

(** [contextTag] in addWitness: the text of the witness named by a truthy
    [contextOf], looked up before the await. *)
Definition contextTagOf (contextOf : option string) (current : list Witness)
    : option string :=
  match contextOf with
  | Some c => if JS.truthyStr (Some c)
              then option_map text (findById c current) else None
  | None => None
  end.

(** addWitness.  [clock] drives the proof of work, [during] is what other
    handlers do while it is computed, [now] is the clock reading after the
    await; [newId], [seed] and [placed] are what generateId(), Math.random()
    and generatePosition() return.  The result is the witness returned and
    the world after; [None]: the proof of work did not resolve within
    [fuel]. *)
Definition addWitness (fuel : nat) (clock : nat -> Z) (now : Z) (newId : string)
    (seed : Q) (placed : Position) (during : World -> World)
    (text : string) (contextOf : option string) (world : World)
    : option (Witness * World) :=
  let contextTag := contextTagOf contextOf (witnesses world) in
  match computeProofOfWork fuel clock (JS.trim text) with
  | None => None
  | Some proof =>
      let world := during (proofComputed (JS.trim text) proof world) in
      let witness :=
        mkWitness newId (JS.trim text) now (getDefaultExpiration now) 1 now
                  (orNullStr contextOf) (Some proof)
                  (mkMetadata (Some seed) contextTag (Some placed) None) in
      Some (witness,
            mkWorld (witnesses world ++ [witness])
                    (gunPuts world ++ [(id witness, gunDataNew witness)])
                    (syncChannel world)
                    (if syncChannel world
                     then (tabPosts world ++ [NEW_WITNESS witness])%list
                     else tabPosts world)
                    (peerSends world ++ [NEW_WITNESS witness])
                    (proofsComputed world))
  end.

End Store.

(** ** Array.prototype.sort and slice *)

Section Sort.

Context {A : Type}.

(** [compare a b > 0] moves [a] behind [b]; the sort is stable, so an element
    only passes those it strictly follows. *)
Variable compare : A -> A -> Z.

Fixpoint insertSorted (a : A) (l : list A) : list A :=
  match l with
  | [] => [a]
  | b :: l' => if compare a b >? 0 then b :: insertSorted a l' else a :: l
  end.

Fixpoint sortWith (l : list A) : list A :=
  match l with
  | [] => []
  | a :: l' => insertSorted a (sortWith l')
  end.

End Sort.

(** [l.slice(-n)]: the last [n] elements, and the whole array for [-0]. *)
Definition sliceLast {A : Type} (n : nat) (l : list A) : list A :=
  match n with
  | O => l
  | _ => skipn (List.length l - n) l
  end.

(** [l.slice(start)] for an integer [start]: counted from the end when
    negative. *)
Definition sliceFrom {A : Type} (start : Z) (l : list A) : list A :=
  if start <? 0
  then skipn (Z.to_nat (Z.max 0 (Z.of_nat (List.length l) + start))) l
  else skipn (Z.to_nat start) l.

(** ** The later revision with a memory limit *)

Module BoundedStore.

Definition MAX_WITNESSES_IN_MEMORY : nat := 200.

(** computeProofOfWork: the time check precedes [nonce++] and the hash is
    written as [(hash >>> 0).toString(16)]. *)
Fixpoint computeLoop (fuel : nat) (clock : nat -> Z) (startTime : Z)
    (text : string) (nonce : Z) (i : nat) : option Proof :=
  match fuel with
  | O => None
  | S fuel' =>
      let hashValue := Pow.accumulate text nonce in
      if clock (S i) - startTime >=? 1000
      then Some (mkProof nonce (JS.toString16 (JS.toUint32 hashValue)))
      else computeLoop fuel' clock startTime text (nonce + 1) (S i)
  end.

Definition computeProofOfWork (fuel : nat) (clock : nat -> Z) (text : string)
    : option Proof :=
  computeLoop fuel clock (clock 0%nat) text 0 0.

(** verifyProofOfWork: both encodings of the accumulator are accepted. *)
Definition verifyProofOfWork (text : string) (proof : Proof) : bool :=
  let hashValue := Pow.accumulate text (nonce proof) in
  let calculatedHashSigned := JS.toString16 hashValue in
  let calculatedHashUnsigned := JS.toString16 (JS.toUint32 hashValue) in
  String.eqb calculatedHashSigned (hash proof) ||
  String.eqb calculatedHashUnsigned (hash proof).

(** calculateCurrentWitnessCount and getActiveWitnesses are unchanged from
    the earlier revision. *)
Definition calculateCurrentWitnessCount := Store.calculateCurrentWitnessCount.
Definition getActiveWitnesses := Store.getActiveWitnesses.

(** [Math.max(w.lastWitnessed, w.createdAt)] *)
Definition touched (w : Witness) : Z := Z.max (lastWitnessed w) (createdAt w).

(** The comparator of the capacity trim: most recently touched first. *)
Definition byTouchedDesc (a b : Witness) : Z := touched b - touched a.

(** The callback of cleanupTimer for a memory limit [limit]. *)
Definition cleanupWith (limit : nat) (now : Z) (current : list Witness)
    : list Witness :=
  let updated := map (Store.decayed now) current in
  let active := getActiveWitnesses now updated in
  if (limit <? List.length active)%nat
  then firstn limit (sortWith byTouchedDesc active)
  else active.

Definition cleanupTick : Z -> list Witness -> list Witness :=
  cleanupWith MAX_WITNESSES_IN_MEMORY.

(** checkMemoryUsage: [percentUsed] is [None] when the browser exposes no
    heap figures; the flag is [memoryWarningShown]. *)
Definition checkMemoryUsage (percentUsed : option Q) (memoryWarningShown : bool)
    (current : list Witness) : list Witness * bool :=
  match percentUsed with
  | None => (current, memoryWarningShown)
  | Some pct =>
      if negb (Qle_bool pct 80) && negb memoryWarningShown then
        (firstn (Nat.div MAX_WITNESSES_IN_MEMORY 2)
                (sortWith (fun a b => expiresAt b - expiresAt a) current),
         true)
      else if negb (Qle_bool 60 pct) then (current, false)
      else (current, memoryWarningShown)
  end.

(** The interval handler: the memory check, then the cleanup callback. *)
Definition cleanupTimer (percentUsed : option Q) (memoryWarningShown : bool)
    (now : Z) (current : list Witness) : list Witness * bool :=
  let '(current, flag) := checkMemoryUsage percentUsed memoryWarningShown current in
  (cleanupTick now current, flag).

(** The comparator of the insertion trim: earliest expiry first. *)
Definition byExpiresAsc (a b : Witness) : Z := expiresAt a - expiresAt b.

(** The new-witness branch of the store update for a memory limit [limit]:
    at the limit, all but the [limit - 1] latest-expiring witnesses are
    dropped before the new one is appended. *)
Definition insertWith (limit : nat) (witness : Witness) (current : list Witness)
    : list Witness :=
  if (limit <=? List.length current)%nat
  then (sliceFrom (- Z.of_nat limit + 1) (sortWith byExpiresAsc current) ++ [witness])%list
  else (current ++ [witness])%list.

(** The callback passed to [witnesses.update] by loadWitnessData. *)
Definition mergeLoaded (dataLastUpdate : option Z) (witness : Witness)
    (current : list Witness) : list Witness * Store.LoadOutcome :=
  match findById (id witness) current with
  | None => (insertWith MAX_WITNESSES_IN_MEMORY witness current, Store.Loaded)
  | Some existing =>
      if Store.changed existing witness dataLastUpdate then
        let witness := Store.overwriting existing witness dataLastUpdate in
        (map (fun w => if String.eqb (id w) (id witness) then witness else w) current,
         Store.Updated)
      else (current, Store.Unchanged)
  end.

(** loadWitnessDataWithTracking: [loadedWitnessIds] is the set of keys seen,
    in insertion order; [load] is loadWitnessData applied to the value that
    came with the key. *)
Definition loadWitnessDataWithTracking (load : list Witness -> list Witness)
    (key : string) (loadedWitnessIds : list string) (current : list Witness)
    : list string * list Witness :=
  if existsb (String.eqb key) loadedWitnessIds then (loadedWitnessIds, current)
  else
    let ids := (loadedWitnessIds ++ [key])%list in
    let ids := if (MAX_WITNESSES_IN_MEMORY * 2 <? List.length ids)%nat
               then sliceLast MAX_WITNESSES_IN_MEMORY ids else ids in
    (ids, load current).

(** The two key tests that open loadWitnessData, unchanged from the earlier
    revision. *)
Definition isSystemKey := Store.isSystemKey.
Definition isVersionedCopy := Store.isVersionedCopy.

(** [gracePeriod] in cleanupExpiredWitnesses: one hour. *)
Definition gracePeriod : Z := 60 * 60 * 1000.

(** The keys [`${key}-v${v}`] for [v] from 1 to 50. *)
Definition versionKeys (key : string) : list string :=
  map (fun v : nat => (key ++ "-v" ++ JS.numberToString (Z.of_nat v))%string)
      (seq 1 50).

(** cleanupExpiredWitnesses: the callback of the scan of the relay for the
    time [now] read before the scan; the keys whose node is set to null, in
    order. *)
Definition cleanupExpiredWitnesses (now : Z) (data : GunValue) (key : string)
    : list string :=
  match data with
  | GNothing => []
  | GObject d =>
      if isSystemKey key then []
      else
        match g_expiresAt d with
        | Some e =>
            if JS.truthyNum (Some e) && JS.truthyStr (g_id d) &&
               JS.truthyStr (g_text d) && JS.truthyNum (g_createdAt d)
            then if now >? e + gracePeriod then key :: versionKeys key else []
            else []
        | None => []
        end
  | _ => []
  end.

End BoundedStore.

(** ** witnessStore-emergency.ts *)

Module Emergency.

(** EMERGENCY_CONFIG.maxWitnesses *)
Definition maxWitnesses : nat := 50.

Definition byCreatedAsc (a b : Witness) : Z := createdAt a - createdAt b.

(** emergencyCleanup for a limit [limit]: the witnesses kept, and the ids
    whose relay node is set to null, in order. *)
Definition emergencyCleanupWith (limit : nat) (now : Z) (current : list Witness)
    : list Witness * list string :=
  let expired := filter (fun w => expiresAt w <=? now) current in
  let active := filter (fun w => expiresAt w >? now) current in
  if (limit <? List.length active)%nat then
    let sorted := sortWith byCreatedAsc active in
    let toRemove := firstn (List.length active - limit) sorted in
    (sliceLast limit sorted, (map id expired ++ map id toRemove)%list)
  else (active, map id expired).

Definition emergencyCleanup : Z -> list Witness -> list Witness * list string :=
  emergencyCleanupWith maxWitnesses.

(** EMERGENCY_CONFIG.expirationTime and maxWitnessCount *)
Definition expirationTime : Z := 2 * 60 * 1000.
Definition maxWitnessCount : Z := 10.

Definition getDefaultExpiration (now : Z) : Z := now + expirationTime.

(** The six fields the emergency store writes to the relay. *)
Definition essentials (w : Witness) : GunData :=
  mkGunData (Some (id w)) (Some (text w)) (Some (createdAt w)) (Some (expiresAt w))
            (Some (witnessCount w)) None (contextOf w)
            None None None None None None None None.

(** The object built for a matching witness in reWitness. *)
Definition rewitnessed (now : Z) (w : Witness) : Witness :=
  let newCount := Z.min (witnessCount w + 1) maxWitnessCount in
  mkWitness (id w) (text w) (createdAt w) (getDefaultExpiration now) newCount now
            (contextOf w) (proof w) (metadata w).

(** reWitness: the store after the update, and the puts made inside the map,
    in order. *)
Definition reWitness (now : Z) (witnessId : string) (current : list Witness)
    : list Witness * list (string * GunData) :=
  (map (fun w => if String.eqb (id w) witnessId then rewitnessed now w else w) current,
   map (fun w => (witnessId, essentials (rewitnessed now w)))
       (filter (fun w => String.eqb (id w) witnessId) current)).

(** The witness the relay listener builds for an unknown id. *)
Definition fromData (random : Q) (placed : Position) (now : Z) (data : GunData)
    (did dtext : string) : Witness :=
  mkWitness did dtext
            (JS.orNum (g_createdAt data) now)
            (JS.orNum (g_expiresAt data) (getDefaultExpiration now))
            (Z.min (JS.orNum (g_witnessCount data) 1) maxWitnessCount)
            (JS.orNum (g_lastWitnessed data) (JS.orNum (g_createdAt data) now))
            (if JS.truthyStr (g_contextOf data) then g_contextOf data else None)
            (Some (mkProof 0 "emergency"))
            (mkMetadata (Some random) None (Some placed) None).

(** The relay listener of initializeStore for a limit [limit]: the store
    after, and the keys whose relay node is set to null. *)
Definition onDataWith (limit : nat) (random : Q) (placed : Position) (now : Z)
    (data : GunValue) (key : string) (current : list Witness)
    : list Witness * list string :=
  match data with
  | GObject d =>
      match g_id d, g_text d with
      | Some did, Some dtext =>
          if JS.truthyStr (Some did) && JS.truthyStr (Some dtext) then
            if JS.truthyNum (g_expiresAt d) &&
               match g_expiresAt d with Some e => e <=? now | None => false end
            then (current, [key])
            else
              match findById did current with
              | Some _ => (current, [])
              | None =>
                  if (limit <=? List.length current)%nat then (current, [])
                  else ((current ++ [fromData random placed now d did dtext])%list, [])
              end
          else (current, [])
      | _, _ => (current, [])
      end
  | _ => (current, [])
  end.

Definition onData : Q -> Position -> Z -> GunValue -> string -> list Witness
                    -> list Witness * list string :=
  onDataWith maxWitnesses.

(** addWitness before the await, for a limit [limit]: at the limit the array
    read from the store is sorted in place by creation time, the node of its
    first element is set to null and the witnesses with that id are filtered
    out of the (now sorted) array.  The store after, and the ids whose node
    is set to null. *)
Definition evictOldestWith (limit : nat) (current : list Witness)
    : list Witness * list string :=
  if (limit <=? List.length current)%nat then
    let sorted := sortWith byCreatedAsc current in
    match sorted with
    | oldest :: _ =>
        (filter (fun w => negb (String.eqb (id w) (id oldest))) sorted, [id oldest])
    | [] => (sorted, [])
    end
  else (current, []).

(** addWitness for a limit [limit].  [proofResult] is what the awaited
    computeProofOfWork settles with ([None] when it rejects, as btoa does on
    a character above U+00FF); [during] is what other handlers do to the
    store during the await; [now], [newId], [seed] and [placed] are the
    results of Date.now(), generateId(), Math.random() and
    generatePosition().  The witness returned (if any), the store after, the
    ids set to null, and the puts. *)
Definition addWitnessWith (limit : nat) (proofResult : option Proof) (now : Z)
    (newId : string) (seed : Q) (placed : Position)
    (during : list Witness -> list Witness)
    (text : string) (contextOf : option string) (current : list Witness)
    : option Witness * list Witness * list string * list (string * GunData) :=
  let '(current, removed) := evictOldestWith limit current in
  let current := during current in
  match proofResult with
  | None => (None, current, removed, [])
  | Some proof =>
      let witness :=
        mkWitness newId (JS.trim text) now (getDefaultExpiration now) 1 now
                  (if JS.truthyStr contextOf then contextOf else None)
                  (Some proof)
                  (mkMetadata (Some seed) None (Some placed) None) in
      (Some witness, (current ++ [witness])%list, removed,
       [(newId, essentials witness)])
  end.

Definition addWitness : option Proof -> Z -> string -> Q -> Position
                        -> (list Witness -> list Witness)
                        -> string -> option string -> list Witness
                        -> option Witness * list Witness * list string
                           * list (string * GunData) :=
  addWitnessWith maxWitnesses.

End Emergency.

(** ** Observations used to state properties *)

(** The relay listener as a handler on the world: only the store is
    touched; nothing is put, posted or sent. *)
Definition onRelayData (random : Q) (now : Z) (data : GunValue) (key : string)
    (world : World) : World * Store.LoadOutcome :=
  let '(current, outcome) := Store.loadWitnessData random now data key (witnesses world) in
  (setWitnesses current world, outcome).

(** The [expiresAt] an incoming value carries, when it carries one. *)
Definition incomingExpiresAt (data : GunValue) : option Z :=
  match data with
  | GObject d => g_expiresAt d
  | GString (Some raw) => raw_expiresAt raw
  | _ => None
  end.

(** The [witnessCount] an incoming value brings ([witnessCount || 1]). *)
Definition incomingCount (data : GunValue) : option Z :=
  match data with
  | GObject d => Some (JS.orNum (g_witnessCount d) 1)
  | GString (Some raw) => Some (JS.orNum (raw_witnessCount raw) 1)
  | _ => None
  end.

(** The [lastWitnessed] an incoming value brings
    ([lastWitnessed || createdAt]). *)
Definition incomingLastWitnessed (data : GunValue) : option Z :=
  match data with
  | GObject d =>
      if JS.truthyNum (g_lastWitnessed d) then g_lastWitnessed d else g_createdAt d
  | GString (Some raw) =>
      if JS.truthyNum (raw_lastWitnessed raw) then raw_lastWitnessed raw
      else raw_createdAt raw
  | _ => None
  end.

(** What two clients are compared on. *)
Definition tupleOf (wid : string) (current : list Witness) : option (Z * Z) :=
  option_map (fun w => (witnessCount w, expiresAt w)) (findById wid current).

(** The ordering key of the specification, compared lexicographically. *)
Definition keyLt (k1 k2 : Z * Z) : bool :=
  (fst k1 <? fst k2) || ((fst k1 =? fst k2) && (snd k1 <? snd k2)).


(** A string of decimal digits only. *)
Fixpoint allDigits (s : string) : bool :=
  match s with
  | EmptyString => true
  | String c s' => JS.isDigit c && allDigits s'
  end.

(** ** Sample data *)

Module Sample.

(** A proof that verifyProofOfWork accepts for the text "hello". *)
Definition helloProof : Proof := mkProof 1 "c543400".

(** A stored witness for the text "hello". *)
Definition witness (wid : string) (created expires count last : Z)
    (update : option Z) : Witness :=
  mkWitness wid "hello" created expires count last None (Some helloProof)
            (mkMetadata None None None update).

(** A complete relay record for the text "hello". *)
Definition record (wid : string) (created expires count last : Z)
    (update : option Z) : GunData :=
  mkGunData (Some wid) (Some "hello") (Some created) (Some expires)
            (Some count) (Some last) None (Some 1) (Some "c543400")
            None None None None update (Some count).

(** The same record with a hash string that does not verify. *)
Definition forged (wid : string) (created expires count last : Z) : GunData :=
  mkGunData (Some wid) (Some "hello") (Some created) (Some expires)
            (Some count) (Some last) None (Some 1) (Some "0")
            None None None None None (Some count).


(** The value Math.random() returns in the samples. *)
Definition random : Q := 1 # 2.

(** The witness the listener builds from [record] before the store update. *)
Definition arrived (wid : string) (created expires count last : Z) : Witness :=
  mkWitness wid "hello" created expires count last None (Some helloProof)
            (mkMetadata (Some random) None None None).

(** A clock whose first check already shows a second elapsed. *)
Definition slowClock (i : nat) : Z := Z.of_nat i * 1000.

(** Three witnesses last witnessed at 300, 100 and 200. *)
Definition trio : list Witness :=
  [witness "a" 10 400000 1 300 None;
   witness "b" 10 400000 1 100 None;
   witness "c" 10 400000 1 200 None].

(** Fifty-one active witnesses created at 1, 2, ..., 51; the first one was
    re-witnessed at 1000, the others never. *)
Definition crowd : list Witness :=
  map (fun i : nat =>
         witness (JS.numberToString (Z.of_nat i)) (Z.of_nat i) 500000
                 (if (i =? 1)%nat then 2 else 1)
                 (if (i =? 1)%nat then 1000 else Z.of_nat i) None)
      (seq 1 51).

End Sample.

Example toInt32_wraps : JS.toInt32 4294967295 = -1.
Proof. reflexivity. Qed.

Example round53_tie_even :
  JS.round53 (2 ^ 53 + 1) = 2 ^ 53 /\ JS.round53 (2 ^ 53 + 3) = 2 ^ 53 + 4.
Proof. split; reflexivity. Qed.

Example toString16_signed :
  JS.toString16 (-255) = "-ff" /\ JS.toString16 (JS.toUint32 (-255)) = "ffffff01".
Proof. split; reflexivity. Qed.

Example version_suffix :
  JS.matchesVersionSuffix "abc-v12" = true /\ JS.matchesVersionSuffix "abc-v" = false.
Proof. split; reflexivity. Qed.

(** ** Accumulator values

    Each of these runs the two loops once; every later proof that needs a
    hash value rewrites with them. *)

Lemma accumulate_hello_0 : Pow.accumulate "hello" 0 = -1294364160.
Proof. vm_compute. reflexivity. Qed.

Lemma accumulate_hello_1 : Pow.accumulate "hello" 1 = 206844928.
Proof. vm_compute. reflexivity. Qed.

Lemma accumulate_world_1 : Pow.accumulate "world" 1 = -1084825344.
Proof. vm_compute. reflexivity. Qed.

Lemma accumulate_rewitness_a1 : Pow.accumulate "rewitness:a1:20" 0 = -1271211008.
Proof. vm_compute. reflexivity. Qed.

(** ** The proof-of-work functions, unfolded *)

Lemma verifyProofOfWork_eq (text : string) (p : Proof) :
  Store.verifyProofOfWork text p =
  String.eqb (JS.toString16 (Pow.accumulate text (nonce p))) (hash p).
Proof. reflexivity. Qed.

(** When the first time check already shows the second elapsed, the first
    iteration resolves: nonce 0 is hashed and nonce 1 is returned. *)
Lemma computeProofOfWork_first_check (fuel : nat) (clock : nat -> Z) (text : string) :
  1000 <= clock 1%nat - clock 0%nat ->
  Store.computeProofOfWork (S fuel) clock text =
  Some (mkProof 1 (JS.toString16 (Pow.accumulate text 0))).
Proof.
  intros H. unfold Store.computeProofOfWork. cbn [Store.computeLoop].
  assert (E : (clock 1%nat - clock 0%nat >=? 1000) = true)
    by (rewrite Z.geb_leb; now apply Z.leb_le).
  rewrite E. reflexivity.
Qed.

Lemma helloProof_valid :
  Store.verifyProofOfWork (JS.trim "hello") Sample.helloProof = true.
Proof.
  rewrite verifyProofOfWork_eq.
  change (Pow.accumulate (JS.trim "hello") (nonce Sample.helloProof))
    with (Pow.accumulate "hello" 1).
  rewrite accumulate_hello_1. reflexivity.
Qed.

(** ** The relay listener, stage by stage *)

Lemma loadWitnessData_reaches (random : Q) (now : Z) (data : GunValue) (key : string)
    (w : Witness) (lu : option Z) :
  Store.beforeUpdate random now data key = inr (w, lu) ->
  forall current,
    Store.loadWitnessData random now data key current = Store.mergeLoaded lu w current.
Proof. intros H current. unfold Store.loadWitnessData. now rewrite H. Qed.

Lemma loadWitnessData_drops (random : Q) (now : Z) (data : GunValue) (key : string)
    (out : Store.LoadOutcome) :
  Store.beforeUpdate random now data key = inl out ->
  forall current, Store.loadWitnessData random now data key current = (current, out).
Proof. intros H current. unfold Store.loadWitnessData. now rewrite H. Qed.

(** A witness whose proof verifies passes to the expiry test with the
    decayed count written into it. *)
Lemma verifyDecay_valid (now : Z) (w : Witness) (p : Proof) :
  proof w = Some p ->
  Store.verifyProofOfWork (JS.trim (text w)) p = true ->
  Store.verifyDecay now w =
  if expiresAt w >? now then inr (Store.decayed now w) else inl Store.ExpiredNotLoaded.
Proof.
  intros Hp Hv. unfold Store.verifyDecay, Store.decayed. rewrite Hp, Hv.
  cbn [negb].
  destruct (negb (Store.calculateCurrentWitnessCount now w =? witnessCount w));
    reflexivity.
Qed.

(** A complete object record under a witness key whose proof verifies. *)
Lemma beforeUpdate_object_valid (random : Q) (now : Z) (d : GunData) (key : string)
    (did dtext : string) (dc de : Z) (p : Proof) :
  Store.isSystemKey key = false ->
  Store.isVersionedCopy key = false ->
  g_id d = Some did -> did <> "" ->
  g_text d = Some dtext -> dtext <> "" ->
  g_createdAt d = Some dc -> dc <> 0 ->
  g_expiresAt d = Some de -> de <> 0 ->
  proof (Store.fromObject random d did dtext dc de) = Some p ->
  Store.verifyProofOfWork (JS.trim dtext) p = true ->
  Store.beforeUpdate random now (GObject d) key =
  if de >? now
  then inr (Store.decayed now (Store.fromObject random d did dtext dc de), g_lastUpdate d)
  else inl Store.ExpiredNotLoaded.
Proof.
  intros Hk Hv Hid Hidn Ht Htn Hc Hcn He Hen Hp Hver.
  unfold Store.beforeUpdate. rewrite Hk, Hv, Hid, Ht, Hc, He.
  assert (T1 : JS.truthyStr (Some did) = true)
    by (unfold JS.truthyStr; apply negb_true_iff, String.eqb_neq; exact Hidn).
  assert (T2 : JS.truthyStr (Some dtext) = true)
    by (unfold JS.truthyStr; apply negb_true_iff, String.eqb_neq; exact Htn).
  assert (T3 : JS.truthyNum (Some dc) = true)
    by (unfold JS.truthyNum; apply negb_true_iff, Z.eqb_neq; exact Hcn).
  assert (T4 : JS.truthyNum (Some de) = true)
    by (unfold JS.truthyNum; apply negb_true_iff, Z.eqb_neq; exact Hen).
  rewrite T1, T2, T3, T4. cbn [andb].
  rewrite (verifyDecay_valid now _ p Hp Hver).
  change (expiresAt (Store.fromObject random d did dtext dc de)) with de.
  destruct (de >? now); reflexivity.
Qed.

(** The sample record is such a record. *)
Lemma beforeUpdate_record (now : Z) (wid : string) (created expires count last : Z)
    (update : option Z) :
  Store.isSystemKey wid = false ->
  Store.isVersionedCopy wid = false ->
  wid <> "" -> created <> 0 -> expires <> 0 -> count <> 0 -> last <> 0 ->
  Store.beforeUpdate Sample.random now
    (GObject (Sample.record wid created expires count last update)) wid =
  if expires >? now
  then inr (Store.decayed now (Sample.arrived wid created expires count last), update)
  else inl Store.ExpiredNotLoaded.
Proof.
  intros Hk Hv Hw Hc He Hn Hl.
  rewrite (beforeUpdate_object_valid Sample.random now
             (Sample.record wid created expires count last update)
             wid wid "hello" created expires
             Sample.helloProof Hk Hv eq_refl Hw eq_refl ltac:(discriminate)
             eq_refl Hc eq_refl He eq_refl helloProof_valid).
  assert (E : Store.fromObject Sample.random
                (Sample.record wid created expires count last update)
                wid "hello" created expires
              = Sample.arrived wid created expires count last).
  { unfold Store.fromObject, Sample.record, Sample.arrived, JS.orNum.
    cbn [g_witnessCount g_lastWitnessed g_contextOf g_proofNonce g_proofHash
         g_entropySeed g_contextTag g_positionX g_positionY].
    apply Z.eqb_neq in Hn. apply Z.eqb_neq in Hl. rewrite Hn, Hl. reflexivity. }
  rewrite E. reflexivity.
Qed.

(** Discharges [beforeUpdate ... (GObject (Sample.record ...)) key = inr _]
    for concrete fields. *)
Ltac sample_arrives :=
  lazymatch goal with
  | |- Store.beforeUpdate _ ?now (GObject (Sample.record ?wid ?c ?e ?n ?l ?u)) _ = _ =>
      exact (beforeUpdate_record now wid c e n l u eq_refl eq_refl
               ltac:(discriminate) ltac:(discriminate) ltac:(discriminate)
               ltac:(discriminate) ltac:(discriminate))
  end.

(** ** Store lookups *)

Lemma findById_none (wid : string) (current : list Witness) :
  (forall w, In w current -> id w <> wid) -> findById wid current = None.
Proof.
  unfold findById. induction current as [|a l IH]; intros H; simpl.
  - reflexivity.
  - destruct (String.eqb (id a) wid) eqn:E.
    + apply String.eqb_eq in E. exfalso. apply (H a); [now left | exact E].
    + apply IH. intros w Hw. apply H. now right.
Qed.

(** ** Re-witnessing an unknown id *)

(** C10. When no stored witness has the id, reWitness returns at once: the
    world after is the world before, so no proof of work is computed, no
    stored witness is changed, nothing is put on the relay and nothing is
    posted to tabs or sent to peers -- whatever the clocks and however much
    time the proof of work would have been given. *)
Theorem reWitness_unknown_id_is_noop :
  forall fuel clock t0 t1 during witnessId world,
    (forall w, In w (witnesses world) -> id w <> witnessId) ->
    Store.reWitness fuel clock t0 t1 during witnessId world = Some world.
Proof.
  intros fuel clock t0 t1 during witnessId world H.
  unfold Store.reWitness. now rewrite (findById_none _ _ H).
Qed.

Lemma reWitness_unknown_id_is_noop_witness :
  let world := mkWorld [Sample.witness "a1" 10 400000 2 10 None] [] true [] [] [] in
  Store.reWitness 0 Sample.slowClock 20 30 (fun w => w) "zz" world = Some world.
Proof.
  intros world.
  apply (reWitness_unknown_id_is_noop 0 Sample.slowClock 20 30 (fun w => w) "zz" world).
  intros w [Hw | []]. subst w. cbn [id Sample.witness]. discriminate.
Defined.

(** ** Expired on arrival *)

Lemma asWitness_fields (built : LegacyWitness) (w : Witness) :
  Store.asWitness built = Some w ->
  l_id built = Some (id w) /\ l_text built = Some (text w) /\
  l_createdAt built = Some (createdAt w) /\
  l_expiresAt built = Some (expiresAt w) /\
  l_witnessCount built = Some (witnessCount w) /\
  l_lastWitnessed built = Some (lastWitnessed w) /\
  proof w = l_proof built /\ metadata w = l_metadata built.
Proof.
  unfold Store.asWitness.
  destruct (l_id built), (l_text built), (l_createdAt built), (l_expiresAt built),
           (l_witnessCount built), (l_lastWitnessed built); try discriminate.
  intros H. injection H as H. subst w. repeat split.
Qed.

(** The stages before the expiry test do not look at the clock: at a time
    at or after the expiry and at a time before it, the proof check gives
    the same verdict; past it, the later delivery is dropped as expired and
    the earlier one goes on to the store update. *)
Lemma verifyDecay_two_times (now earlier : Z) (w : Witness) :
  expiresAt w <= now -> earlier < expiresAt w ->
  (Store.verifyDecay now w = inl Store.InvalidPoW /\
   Store.verifyDecay earlier w = inl Store.InvalidPoW) \/
  (Store.verifyDecay now w = inl Store.ExpiredNotLoaded /\
   exists w', Store.verifyDecay earlier w = inr w').
Proof.
  intros Hn He. unfold Store.verifyDecay.
  destruct (match proof w with
            | Some p => negb (Store.verifyProofOfWork (JS.trim (text w)) p)
            | None => false
            end); [now left | right].
  cbv zeta.
  assert (X : forall w', expiresAt w' = expiresAt w -> (expiresAt w' >? now) = false).
  { intros w' E. rewrite E, Z.gtb_ltb. now apply Z.ltb_ge. }
  assert (Y : forall w', expiresAt w' = expiresAt w -> (expiresAt w' >? earlier) = true).
  { intros w' E. rewrite E, Z.gtb_ltb. now apply Z.ltb_lt. }
  split.
  - destruct (negb (Store.calculateCurrentWitnessCount now w =? witnessCount w));
      now rewrite X.
  - destruct (negb (Store.calculateCurrentWitnessCount earlier w =? witnessCount w));
      rewrite Y by reflexivity; eexists; reflexivity.
Qed.

Lemma verifyDecayLegacy_two_times (now earlier : Z) (built : LegacyWitness) (e : Z) :
  l_expiresAt built = Some e -> e <= now -> earlier < e ->
  (Store.verifyDecayLegacy now built = Store.verifyDecayLegacy earlier built /\
   In (Store.verifyDecayLegacy now built) [Store.ParseFailed; Store.InvalidPoW]) \/
  (Store.verifyDecayLegacy now built = Store.ExpiredNotLoaded /\
   exists handed, Store.verifyDecayLegacy earlier built = Store.NotAWitness handed).
Proof.
  intros He Hn Hl.
  assert (X : (e >? now) = false) by (rewrite Z.gtb_ltb; now apply Z.ltb_ge).
  assert (Y : (e >? earlier) = true) by (rewrite Z.gtb_ltb; now apply Z.ltb_lt).
  assert (K : forall t (b : bool),
             l_expiresAt (if b then Store.withLegacyCount built (Store.legacyCount t built)
                          else built) = Some e).
  { intros t [|]; [cbn [l_expiresAt Store.withLegacyCount]|]; exact He. }
  unfold Store.verifyDecayLegacy. cbv zeta.
  rewrite !K, X, Y.
  destruct (l_proof built) as [p|].
  - destruct (l_text built) as [t|].
    + destruct (negb (Store.verifyProofOfWork (JS.trim t) p)).
      * left. split; [reflexivity | right; now left].
      * right. split; [reflexivity | eexists; reflexivity].
    + left. split; [reflexivity | now left].
  - right. split; [reflexivity | eexists; reflexivity].
Qed.

(** A value that has expired, seen at the time of delivery and at a time
    before its expiry: either an earlier stage drops it at both times, or it
    is dropped as expired now and would have reached the store update
    then. *)
Lemma beforeUpdate_two_times (random : Q) (now earlier : Z) (data : GunValue)
    (key : string) (e : Z) :
  incomingExpiresAt data = Some e -> e <= now -> earlier < e ->
  (exists out,
      Store.beforeUpdate random now data key = inl out /\
      Store.beforeUpdate random earlier data key = inl out /\
      In out [Store.SystemKey; Store.VersionedCopy; Store.ParseFailed;
              Store.Incomplete; Store.InvalidFormat; Store.InvalidPoW]) \/
  (Store.beforeUpdate random now data key = inl Store.ExpiredNotLoaded /\
   ((exists w lu, Store.beforeUpdate random earlier data key = inr (w, lu)) \/
    (exists handed,
        Store.beforeUpdate random earlier data key = inl (Store.NotAWitness handed)))).
Proof.
  intros He Hn Hl. unfold Store.beforeUpdate.
  destruct data as [ | [raw|] | d | ]; simpl in He; try discriminate.
  - destruct (Store.isSystemKey key);
      [left; eexists; repeat split; simpl; auto |].
    destruct (Store.isVersionedCopy key);
      [left; eexists; repeat split; simpl; auto |].
    cbv zeta.
    destruct (Store.asWitness (Store.fromRaw random raw)) as [w|] eqn:A.
    + apply asWitness_fields in A. destruct A as (_ & _ & _ & A & _).
      cbn [l_expiresAt Store.fromRaw] in A. rewrite He in A. injection A as A.
      destruct (verifyDecay_two_times now earlier w) as [[E1 E2]|[E1 [w' E2]]];
        [lia | lia | |]; rewrite E1, E2.
      * left. eexists. repeat split. simpl. auto 10.
      * right. split; [reflexivity|]. left. eexists. eexists. reflexivity.
    + destruct (verifyDecayLegacy_two_times now earlier (Store.fromRaw random raw) e)
        as [[E1 E2]|[E1 [handed E2]]]; [exact He | exact Hn | exact Hl | |].
      * left. exists (Store.verifyDecayLegacy now (Store.fromRaw random raw)).
        split; [reflexivity|]. split; [now rewrite E1|].
        destruct E2 as [E2|[E2|[]]]; rewrite <- E2; simpl; auto 10.
      * right. rewrite E1, E2. split; [reflexivity|]. right. eexists. reflexivity.
  - destruct (Store.isSystemKey key);
      [left; eexists; repeat split; simpl; auto |].
    destruct (Store.isVersionedCopy key);
      [left; eexists; repeat split; simpl; auto |].
    destruct (g_id d) as [did|];
      [|left; eexists; repeat split; simpl; auto 10].
    destruct (JS.truthyStr (Some did));
      [|left; eexists; repeat split; simpl; auto 10].
    destruct (g_text d) as [dtext|];
      [|left; eexists; repeat split; simpl; auto 10].
    destruct (g_createdAt d) as [dc|];
      [|left; eexists; repeat split; simpl; auto 10].
    rewrite He.
    destruct (JS.truthyStr (Some dtext) && JS.truthyNum (Some dc) && JS.truthyNum (Some e));
      [|left; eexists; repeat split; simpl; auto 10].
    destruct (verifyDecay_two_times now earlier
                (Store.fromObject random d did dtext dc e)) as [[E1 E2]|[E1 [w' E2]]];
      [simpl; lia | simpl; lia | |]; rewrite E1, E2.
    + left. eexists. repeat split. simpl. auto 10.
    + right. split; [reflexivity|]. left. eexists. eexists. reflexivity.
Qed.

(** A complete object record whose proof does not verify is rejected for
    its proof, whatever its expiry. *)
Lemma beforeUpdate_object_invalid (random : Q) (now : Z) (d : GunData) (key : string)
    (did dtext : string) (dc de : Z) (p : Proof) :
  Store.isSystemKey key = false ->
  Store.isVersionedCopy key = false ->
  g_id d = Some did -> did <> "" ->
  g_text d = Some dtext -> dtext <> "" ->
  g_createdAt d = Some dc -> dc <> 0 ->
  g_expiresAt d = Some de -> de <> 0 ->
  proof (Store.fromObject random d did dtext dc de) = Some p ->
  Store.verifyProofOfWork (JS.trim dtext) p = false ->
  Store.beforeUpdate random now (GObject d) key = inl Store.InvalidPoW.
Proof.
  intros Hk Hv Hid Hidn Ht Htn Hc Hcn He Hen Hp Hver.
  unfold Store.beforeUpdate. rewrite Hk, Hv, Hid, Ht, Hc, He.
  assert (T1 : JS.truthyStr (Some did) = true)
    by (unfold JS.truthyStr; apply negb_true_iff, String.eqb_neq; exact Hidn).
  assert (T2 : JS.truthyStr (Some dtext) = true)
    by (unfold JS.truthyStr; apply negb_true_iff, String.eqb_neq; exact Htn).
  assert (T3 : JS.truthyNum (Some dc) = true)
    by (unfold JS.truthyNum; apply negb_true_iff, Z.eqb_neq; exact Hcn).
  assert (T4 : JS.truthyNum (Some de) = true)
    by (unfold JS.truthyNum; apply negb_true_iff, Z.eqb_neq; exact Hen).
  rewrite T1, T2, T3, T4. cbn [andb].
  unfold Store.verifyDecay. rewrite Hp.
  change (text (Store.fromObject random d did dtext dc de)) with dtext.
  rewrite Hver. reflexivity.
Qed.

Lemma forged_proof_invalid :
  Store.verifyProofOfWork (JS.trim "hello") (mkProof 1 "0") = false.
Proof.
  rewrite verifyProofOfWork_eq.
  change (Pow.accumulate (JS.trim "hello") (nonce (mkProof 1 "0")))
    with (Pow.accumulate "hello" 1).
  rewrite accumulate_hello_1. reflexivity.
Qed.

(** C6 (amended). A value arriving from the relay whose [expiresAt] is at or
    before the current time is dropped: the listener leaves the whole world
    as it was (the store is unchanged and nothing is put, posted or sent).
    The branch it takes is the expiry rejection exactly when the value
    passes the stages that come before the expiry test -- that is, when the
    same value, arriving at a time before its expiry, would have been handed
    to the store update; otherwise it is the rejection of that earlier stage
    (key filter, parse failure, completeness, format, proof).  A witness
    that arrives as a tab or peer message passes no expiry test: when its id
    is not stored, the new-witness message appends it although it has
    expired. *)
Theorem expired_on_arrival_is_dropped :
  forall random now data key world e,
    incomingExpiresAt data = Some e ->
    e <= now ->
    fst (onRelayData random now data key world) = world /\
    In (snd (onRelayData random now data key world))
       [Store.SystemKey; Store.VersionedCopy; Store.ParseFailed; Store.Incomplete;
        Store.InvalidFormat; Store.InvalidPoW; Store.ExpiredNotLoaded] /\
    (forall earlier,
        earlier < e ->
        (snd (onRelayData random now data key world) = Store.ExpiredNotLoaded <->
         (exists w lu, Store.beforeUpdate random earlier data key = inr (w, lu)) \/
         (exists handed,
             Store.beforeUpdate random earlier data key
             = inl (Store.NotAWitness handed)))) /\
    (forall late current,
        expiresAt late <= now ->
        findById (id late) current = None ->
        Store.onChannelMessage (NEW_WITNESS late) current = (current ++ [late])%list).
Proof.
  intros random now data key world e He Hle.
  assert (W : forall out,
             Store.beforeUpdate random now data key = inl out ->
             fst (onRelayData random now data key world) = world /\
             snd (onRelayData random now data key world) = out).
  { intros out E. unfold onRelayData, Store.loadWitnessData. rewrite E. simpl.
    split; [destruct world; reflexivity | reflexivity]. }
  split; [|split; [|split]];
    [| | |intros late current _ F; unfold Store.onChannelMessage; now rewrite F].
  - destruct (beforeUpdate_two_times random now (e - 1) data key e He Hle)
      as [[out [E _]]|[E _]]; [lia | |]; now apply W in E.
  - destruct (beforeUpdate_two_times random now (e - 1) data key e He Hle)
      as [[out [E [_ Hin]]]|[E _]]; [lia | |]; apply W in E; destruct E as [_ E];
      rewrite E; simpl in *; [|auto 10].
    repeat (destruct Hin as [Hin|Hin]; [subst out; auto 10|]). contradiction.
  - intros earlier Hl.
    destruct (beforeUpdate_two_times random now earlier data key e He Hle Hl)
      as [[out [E [E' Hin]]]|[E R]]; apply W in E; destruct E as [_ E]; rewrite E.
    + split.
      * intros ->. simpl in Hin.
        repeat (destruct Hin as [Hin|Hin]; [discriminate|]). contradiction.
      * intros [[w [lu R]]|[handed R]]; rewrite E' in R; [discriminate|].
        injection R as R. rewrite R in Hin. simpl in Hin.
        repeat (destruct Hin as [Hin|Hin]; [discriminate|]). contradiction.
    + split; [intros _; exact R | reflexivity].
Qed.

Lemma expired_on_arrival_is_dropped_witness :
  let world := mkWorld [Sample.witness "a1" 10 400000 2 10 None] [] true [] [] [] in
  let data := GObject (Sample.record "b2" 10 300010 1 10 None) in
  fst (onRelayData Sample.random 300010 data "b2" world) = world /\
  snd (onRelayData Sample.random 300010 data "b2" world) = Store.ExpiredNotLoaded.
Proof.
  intros world data.
  destruct (expired_on_arrival_is_dropped Sample.random 300010 data "b2" world 300010)
    as [H1 [_ [H3 _]]]; [reflexivity | lia |].
  split; [exact H1|].
  apply (H3 1000); [lia|]. left. eexists. eexists. unfold data. sample_arrives.
Defined.

(** C6, as stated, fails twice.  An expired record whose proof does not
    verify is rejected for its proof, not as expired: the proof is checked
    before the expiry.  And a witness that arrives as a tab or peer message
    passes no expiry test: one that expired long ago is appended to the
    store, where the expiry filter would not have it. *)
Lemma expired_is_not_always_rejected_as_expired :
  let world := mkWorld [Sample.witness "a1" 10 400000 2 10 None] [] true [] [] [] in
  let data := GObject (Sample.forged "b2" 10 300010 1 10) in
  let late := Sample.witness "c3" 10 300010 1 10 None in
  incomingExpiresAt data = Some 300010 /\
  snd (onRelayData Sample.random 400000 data "b2" world) = Store.InvalidPoW /\
  expiresAt late <= 400000 /\
  Store.onChannelMessage (NEW_WITNESS late) (witnesses world)
  = [Sample.witness "a1" 10 400000 2 10 None; late] /\
  Store.getActiveWitnesses 400000 [late] = [].
Proof.
  intros world data late.
  assert (E : Store.beforeUpdate Sample.random 400000 data "b2" = inl Store.InvalidPoW).
  { exact (beforeUpdate_object_invalid Sample.random 400000
             (Sample.forged "b2" 10 300010 1 10) "b2" "b2" "hello" 10 300010
             (mkProof 1 "0") eq_refl eq_refl eq_refl ltac:(discriminate)
             eq_refl ltac:(discriminate) eq_refl ltac:(discriminate)
             eq_refl ltac:(discriminate) eq_refl forged_proof_invalid). }
  split; [reflexivity|]. split.
  - unfold onRelayData, Store.loadWitnessData. rewrite E. reflexivity.
  - split; [cbn; lia|]. split; reflexivity.
Qed.

(** ** Decay of the displayed count *)

(** C7 (amended). At a time [now] not before [lastWitnessed], with [k] full
    decay intervals of two minutes elapsed since [lastWitnessed], the
    effective count is the stored count minus [k], floored at 1; it is then
    at least 1 and, for a stored count of at least 1, never above the stored
    count. *)
Theorem effective_count_after_full_intervals :
  forall now w k,
    lastWitnessed w <= now ->
    k * 120000 <= now - lastWitnessed w < (k + 1) * 120000 ->
    Store.calculateCurrentWitnessCount now w = Z.max 1 (witnessCount w - k) /\
    1 <= Store.calculateCurrentWitnessCount now w /\
    (1 <= witnessCount w ->
     Store.calculateCurrentWitnessCount now w <= witnessCount w).
Proof.
  intros now w k Hnow Hk.
  unfold Store.calculateCurrentWitnessCount, Store.DEV_MODE.
  replace (2 * 60 * 1000) with 120000 by reflexivity.
  assert (Hq : (now - lastWitnessed w) / 120000 = k).
  { symmetry. apply Z.div_unique with (r := now - lastWitnessed w - k * 120000); lia. }
  rewrite Hq. repeat split; lia.
Qed.

Lemma effective_count_after_full_intervals_witness :
  Store.calculateCurrentWitnessCount 250010 (Sample.witness "a1" 10 400000 5 10 None) = 3.
Proof.
  destruct (effective_count_after_full_intervals 250010 (Sample.witness "a1" 10 400000 5 10 None) 2)
    as [E _].
  - simpl. lia.
  - simpl. lia.
  - exact E.
Defined.

(** C7, as stated, fails for a witness last witnessed after the local clock
    reading (a record from a client whose clock runs ahead): the quotient is
    floored to -1 and the effective count exceeds the stored count. *)
Lemma effective_count_exceeds_stored_count :
  let w := Sample.witness "a1" 10 400000 3 1000 None in
  witnessCount w < Store.calculateCurrentWitnessCount 999 w.
Proof. reflexivity. Qed.

(** ** The store update of the relay listener *)

Lemma findById_app (wid : string) (l1 l2 : list Witness) :
  findById wid (l1 ++ l2) =
  match findById wid l1 with Some w => Some w | None => findById wid l2 end.
Proof.
  unfold findById. induction l1 as [|a l IH]; simpl; [reflexivity|].
  destruct (String.eqb (id a) wid); [reflexivity | exact IH].
Qed.

Lemma findById_replace_same (nw : Witness) (l : list Witness) (old : Witness) :
  findById (id nw) l = Some old ->
  findById (id nw) (map (fun w => if String.eqb (id w) (id nw) then nw else w) l) = Some nw.
Proof.
  unfold findById. induction l as [|a l IH]; simpl; [discriminate|].
  destruct (String.eqb (id a) (id nw)) eqn:E; simpl.
  - now rewrite String.eqb_refl.
  - rewrite E. exact IH.
Qed.


(** The condition of the update, read off the fields. *)
Lemma changed_iff (existing w : Witness) (lu : option Z) :
  Store.changed existing w lu = true <->
  witnessCount existing <> witnessCount w \/
  expiresAt existing <> expiresAt w \/
  (exists a, lu = Some a /\ a <> 0 /\
     match lastUpdate (metadata existing) with
     | Some b => b = 0 \/ b < a
     | None => True
     end).
Proof.
  unfold Store.changed, JS.truthyNum, Store.gtNum.
  destruct (Z.eqb_spec (witnessCount existing) (witnessCount w)) as [E1|E1];
    [|simpl; split; [intros _; now left | reflexivity]].
  destruct (Z.eqb_spec (expiresAt existing) (expiresAt w)) as [E2|E2];
    [|simpl; split; [intros _; now right; left | reflexivity]].
  simpl.
  destruct lu as [a|];
    [|split; [discriminate | intros [H|[H|[a [H _]]]]; [tauto | tauto | discriminate]]].
  destruct (Z.eqb_spec a 0) as [Ea|Ea]; simpl.
  { split; [discriminate | intros [H|[H|[a' [H [H' _]]]]]; [tauto | tauto |]].
    injection H as H. congruence. }
  destruct (lastUpdate (metadata existing)) as [b|]; simpl.
  - rewrite Z.gtb_ltb.
    destruct (Z.eqb_spec b 0) as [Eb|Eb]; simpl.
    + split; [intros _ | reflexivity]. right; right. exists a. auto.
    + destruct (Z.ltb_spec b a) as [L|L].
      * split; [intros _ | reflexivity]. right; right. exists a. auto.
      * split; [discriminate | intros [H|[H|[a' [H [_ [H'|H']]]]]]; try tauto].
        injection H as H. subst a'. lia.
  - split; [intros _ | reflexivity]. right; right. exists a. auto.
Qed.

Lemma mergeLoaded_known (lu : option Z) (w existing : Witness) (current : list Witness) :
  findById (id w) current = Some existing ->
  Store.mergeLoaded lu w current =
  if Store.changed existing w lu
  then (map (fun v => if String.eqb (id v) (id w)
                      then Store.overwriting existing w lu else v) current,
        Store.Updated)
  else (current, Store.Unchanged).
Proof.
  intros H. unfold Store.mergeLoaded. rewrite H. reflexivity.
Qed.



(** The tab and peer channels have their own handler, which has no stages:
    a new witness is appended and an update replaces the stored copy as it
    comes. *)
Remark channel_message_is_applied_as_it_comes (w : Witness) (current : list Witness) :
  findById (id w) current = None ->
  Store.onChannelMessage (NEW_WITNESS w) current = (current ++ [w])%list /\
  findById (id w) (Store.onChannelMessage (UPDATE_WITNESS w)
                     (Store.onChannelMessage (NEW_WITNESS w) current)) = Some w.
Proof.
  intros H. unfold Store.onChannelMessage. rewrite H. split; [reflexivity|].
  apply findById_replace_same with (old := w). rewrite findById_app, H.
  unfold findById. cbn [find]. now rewrite String.eqb_refl.
Qed.


(** ** The merge rule *)

(** C1 (amended). When a record reaches the store update as witness [w]
    (count already decayed) carrying [lu] as its lastUpdate, and a witness
    with the same id is stored, the stored copy is overwritten exactly when
    the count differs, or the expiry differs, or [lu] is a non-zero
    lastUpdate and the stored copy has none or a strictly smaller one;
    otherwise the store is left as it is.  In particular, between records
    with equal count and equal expiry that both carry a lastUpdate, the
    higher lastUpdate wins and the lower one is not applied. *)
Theorem known_id_is_overwritten_iff_changed :
  forall random now data key current w lu existing,
    Store.beforeUpdate random now data key = inr (w, lu) ->
    findById (id w) current = Some existing ->
    (snd (Store.loadWitnessData random now data key current) = Store.Updated <->
       witnessCount existing <> witnessCount w \/
       expiresAt existing <> expiresAt w \/
       (exists a, lu = Some a /\ a <> 0 /\
          match lastUpdate (metadata existing) with
          | Some b => b = 0 \/ b < a
          | None => True
          end)) /\
    (snd (Store.loadWitnessData random now data key current) = Store.Updated ->
       findById (id w) (fst (Store.loadWitnessData random now data key current))
       = Some (Store.overwriting existing w lu)) /\
    (snd (Store.loadWitnessData random now data key current) <> Store.Updated ->
       Store.loadWitnessData random now data key current = (current, Store.Unchanged)) /\
    (forall a b,
       witnessCount existing = witnessCount w ->
       expiresAt existing = expiresAt w ->
       lu = Some a -> lastUpdate (metadata existing) = Some b ->
       a <> 0 -> b <> 0 ->
       (snd (Store.loadWitnessData random now data key current) = Store.Updated <-> b < a)).
Proof.
  intros random now data key current w lu existing Hb Hf.
  unfold Store.loadWitnessData. rewrite Hb.
  rewrite (mergeLoaded_known lu w existing current Hf).
  pose proof (changed_iff existing w lu) as Hc.
  destruct (Store.changed existing w lu) eqn:C; simpl.
  - split; [|split; [|split]].
    + split; [intros _; now apply Hc | reflexivity].
    + intros _.
      change (fun v => if String.eqb (id v) (id w) then Store.overwriting existing w lu else v)
        with (fun v => if String.eqb (id v) (id (Store.overwriting existing w lu))
                       then Store.overwriting existing w lu else v).
      change (id w) with (id (Store.overwriting existing w lu)) at 1.
      now apply findById_replace_same with (old := existing).
    + intros H. now contradiction H.
    + intros a b E1 E2 El Eb Ha Hnb.
      split; [intros _ | reflexivity].
      destruct (proj1 Hc eq_refl) as [H|[H|[a' [H1 [H2 H3]]]]]; [congruence | congruence |].
      rewrite Eb in H3. assert (a' = a) by congruence. subst a'.
      destruct H3; [contradiction | assumption].
  - split; [|split; [|split]].
    + split; [discriminate | intros H; apply Hc in H; discriminate].
    + discriminate.
    + reflexivity.
    + intros a b E1 E2 El Eb Ha Hnb.
      split; [discriminate | intros Hlt].
      assert (false = true) as X; [|discriminate X].
      apply Hc. right; right. exists a. rewrite Eb. auto.
Qed.

Lemma known_id_is_overwritten_iff_changed_witness :
  let current := [Sample.witness "a1" 10 330100 2 100 (Some 90)] in
  let data := GObject (Sample.record "a1" 10 330100 2 100 (Some 100)) in
  snd (Store.loadWitnessData Sample.random 1000 data "a1" current) = Store.Updated.
Proof.
  intros current data.
  destruct (known_id_is_overwritten_iff_changed Sample.random 1000 data "a1" current
              (Sample.arrived "a1" 10 330100 2 100) (Some 100)
              (Sample.witness "a1" 10 330100 2 100 (Some 90)))
    as [_ [_ [_ H]]].
  - unfold data. sample_arrives.
  - reflexivity.
  - apply (H 100 90); try reflexivity; discriminate.
Defined.

(** C1, as stated, fails: a record whose ordering key is strictly smaller
    than the stored one is applied.  First a record with a lower count and an
    older lastUpdate overwrites count 2 by count 1; then Scenario B, where the
    third client holds A's re-validation (count 2, lastUpdate 100) and B's
    (count 2, lastUpdate 90, hence another expiry) arrives and replaces it. *)
Lemma smaller_ordering_key_overwrites :
  let stored := [Sample.witness "a1" 10 330100 2 100 (Some 100)] in
  let stale := GObject (Sample.record "a1" 10 300010 1 10 (Some 50)) in
  let fromB := GObject (Sample.record "a1" 10 330090 2 90 (Some 90)) in
  keyLt (1, 50) (2, 100) = true /\
  snd (Store.loadWitnessData Sample.random 1000 stale "a1" stored) = Store.Updated /\
  tupleOf "a1" (fst (Store.loadWitnessData Sample.random 1000 stale "a1" stored))
  = Some (1, 300010) /\
  keyLt (2, 90) (2, 100) = true /\
  snd (Store.loadWitnessData Sample.random 1000 fromB "a1" stored) = Store.Updated /\
  tupleOf "a1" (fst (Store.loadWitnessData Sample.random 1000 fromB "a1" stored))
  = Some (2, 330090).
Proof.
  intros stored stale fromB.
  assert (Hs : Store.beforeUpdate Sample.random 1000 stale "a1"
               = inr (Sample.arrived "a1" 10 300010 1 10, Some 50))
    by (unfold stale; sample_arrives).
  assert (Hb : Store.beforeUpdate Sample.random 1000 fromB "a1"
               = inr (Sample.arrived "a1" 10 330090 2 90, Some 90))
    by (unfold fromB; sample_arrives).
  rewrite !(loadWitnessData_reaches _ _ _ _ _ _ Hs).
  rewrite !(loadWitnessData_reaches _ _ _ _ _ _ Hb).
  repeat split.
Qed.
(** ** What reaches the store update *)

(** What the cleanup and the listener write into a witness is the effective
    count. *)
Lemma decayed_count (now : Z) (w : Witness) :
  witnessCount (Store.decayed now w) = Store.calculateCurrentWitnessCount now w.
Proof.
  unfold Store.decayed.
  destruct (Z.eqb_spec (Store.calculateCurrentWitnessCount now w) (witnessCount w)) as [E|E];
    cbn [negb]; [now rewrite E | reflexivity].
Qed.

Lemma decayed_fields (now : Z) (w : Witness) :
  id (Store.decayed now w) = id w /\
  expiresAt (Store.decayed now w) = expiresAt w /\
  metadata (Store.decayed now w) = metadata w.
Proof.
  unfold Store.decayed.
  destruct (negb (Store.calculateCurrentWitnessCount now w =? witnessCount w));
    repeat split.
Qed.

Lemma verifyDecay_inr (now : Z) (w w' : Witness) :
  Store.verifyDecay now w = inr w' ->
  w' = Store.decayed now w /\ now < expiresAt w.
Proof.
  unfold Store.verifyDecay, Store.decayed.
  destruct (match proof w with
            | Some p => negb (Store.verifyProofOfWork (JS.trim (text w)) p)
            | None => false
            end); [discriminate|].
  cbv zeta.
  destruct (negb (Store.calculateCurrentWitnessCount now w =? witnessCount w));
    cbn [expiresAt withCount];
    (destruct (expiresAt w >? now) eqn:E; [|discriminate]);
    intros H; injection H as H; (split; [now symmetry|]);
    rewrite Z.gtb_ltb in E; now apply Z.ltb_lt.
Qed.

Lemma orNum_or (x : option Z) (d : Z) :
  (if JS.truthyNum x then x else Some d) = Some (JS.orNum x d).
Proof.
  unfold JS.truthyNum, JS.orNum. destruct x as [n|]; [|reflexivity].
  destruct (n =? 0); reflexivity.
Qed.

(** The witness that reaches the store update was built from the value and
    decayed: it has the value's id and expiry, and the value's count decayed
    at the time of the delivery. *)
Lemma beforeUpdate_inr (random : Q) (now : Z) (data : GunValue) (key : string)
    (w : Witness) (lu : option Z) :
  Store.beforeUpdate random now data key = inr (w, lu) ->
  exists built,
    w = Store.decayed now built /\ now < expiresAt built /\
    incomingExpiresAt data = Some (expiresAt built) /\
    incomingCount data = Some (witnessCount built) /\
    incomingLastWitnessed data = Some (lastWitnessed built) /\
    ((exists raw, data = GString (Some raw) /\
                  Store.asWitness (Store.fromRaw random raw) = Some built /\
                  raw_id raw = Some (id built) /\ lu = None) \/
     (exists d did dtext dc de,
        data = GObject d /\ g_id d = Some did /\ g_text d = Some dtext /\
        g_createdAt d = Some dc /\ g_expiresAt d = Some de /\
        built = Store.fromObject random d did dtext dc de /\ lu = g_lastUpdate d)).
Proof.
  unfold Store.beforeUpdate. intros H.
  destruct data as [ | [raw|] | d | ]; try discriminate;
    (destruct (Store.isSystemKey key); [discriminate|]);
    (destruct (Store.isVersionedCopy key); [discriminate|]); try discriminate.
  - cbv zeta in H.
    destruct (Store.asWitness (Store.fromRaw random raw)) as [b|] eqn:A;
      [|discriminate].
    destruct (Store.verifyDecay now b) as [out|w0] eqn:V; [discriminate|].
    injection H as H1 H2. subst w0 lu.
    apply verifyDecay_inr in V. destruct V as [V1 V2].
    exists b. split; [exact V1|]. split; [exact V2|].
    pose proof (asWitness_fields _ _ A) as (Fi & _ & _ & Fe & Fc & Fl & _).
    cbn [l_id l_expiresAt l_witnessCount l_lastWitnessed Store.fromRaw] in Fi, Fe, Fc, Fl.
    cbn [incomingExpiresAt incomingCount incomingLastWitnessed].
    split; [exact Fe|]. split; [exact Fc|]. split; [exact Fl|].
    left. exists raw. repeat split; assumption.
  - destruct (g_id d) as [did|] eqn:Eid; [|discriminate].
    destruct (JS.truthyStr (Some did)); [|discriminate].
    destruct (g_text d) as [dtext|] eqn:Et; [|discriminate].
    destruct (g_createdAt d) as [dc|] eqn:Ec; [|discriminate].
    destruct (g_expiresAt d) as [de|] eqn:Ee; [|discriminate].
    destruct (JS.truthyStr (Some dtext) && JS.truthyNum (Some dc) && JS.truthyNum (Some de));
      [|discriminate].
    destruct (Store.verifyDecay now (Store.fromObject random d did dtext dc de))
      as [out|w0] eqn:V; [discriminate|].
    injection H as H1 H2. subst w0 lu.
    apply verifyDecay_inr in V. destruct V as [V1 V2].
    exists (Store.fromObject random d did dtext dc de).
    split; [exact V1|]. split; [exact V2|].
    cbn [incomingExpiresAt incomingCount incomingLastWitnessed].
    split; [exact Ee|]. split; [reflexivity|].
    split; [rewrite Ec; apply orNum_or|].
    right. exists d, did, dtext, dc, de. repeat split; assumption.
Qed.



(** ** Repeated and reordered delivery *)




(** ** Decay and the stored count *)

Lemma cleanupTick_writes_effective_count (now : Z) (w : Witness) (current : list Witness) :
  In w current -> expiresAt w > now ->
  exists w', In w' (Store.cleanupTick now current) /\
             id w' = id w /\
             witnessCount w' = Store.calculateCurrentWitnessCount now w.
Proof.
  intros Hin He. exists (Store.decayed now w). split; [|split].
  - unfold Store.cleanupTick, Store.getActiveWitnesses. apply filter_In. split.
    + now apply in_map.
    + assert (E : expiresAt (Store.decayed now w) = expiresAt w)
        by (unfold Store.decayed;
            destruct (negb (Store.calculateCurrentWitnessCount now w =? witnessCount w));
            reflexivity).
      rewrite E, Z.gtb_ltb. apply Z.ltb_lt. lia.
  - unfold Store.decayed.
    destruct (negb (Store.calculateCurrentWitnessCount now w =? witnessCount w));
      reflexivity.
  - apply decayed_count.
Qed.

(** C4.  The code writes the decayed count into the store.  A witness stored
    with count 5 and last witnessed at 10 is rewritten to count 4 by the
    cleanup at 120010 and to count 3 by the next cleanup ten seconds later,
    although only one decay interval has elapsed and the effective count of
    the original record at that time is 4; and a relay record with count 5
    that arrives two intervals after it was last witnessed is stored with
    count 3. *)
Theorem decay_lowers_the_stored_count :
  let w := Sample.witness "a1" 10 375010 5 10 None in
  map witnessCount (Store.cleanupTick 120010 [w]) = [4] /\
  map witnessCount (Store.cleanupTick 130010 (Store.cleanupTick 120010 [w])) = [3] /\
  Store.calculateCurrentWitnessCount 130010 w = 4 /\
  tupleOf "a1" (fst (Store.loadWitnessData Sample.random 250010
                       (GObject (Sample.record "a1" 10 375010 5 10 None)) "a1" []))
  = Some (3, 375010).
Proof.
  intros w.
  assert (H : Store.beforeUpdate Sample.random 250010
                (GObject (Sample.record "a1" 10 375010 5 10 None)) "a1"
              = inr (Sample.arrived "a1" 10 375010 3 10, None))
    by sample_arrives.
  rewrite (loadWitnessData_reaches _ _ _ _ _ _ H).
  repeat split.
Qed.

(** ** Re-witnessing a stored witness *)

Lemma lastBumped_from (now : Z) (wid : string) (current : list Witness)
    (acc : option Witness) (u : Witness) :
  fold_left
    (fun acc w => if String.eqb (id w) wid then Some (Store.bump now w) else acc)
    current acc = Some u ->
  acc = Some u \/ exists w, In w current /\ id w = wid /\ u = Store.bump now w.
Proof.
  revert acc. induction current as [|a l IH]; intros acc H; simpl in H.
  - now left.
  - apply IH in H. destruct H as [H | [w [Hin [Hid Hu]]]].
    + destruct (String.eqb (id a) wid) eqn:E.
      * right. exists a. apply String.eqb_eq in E.
        injection H as H. split; [now left | split; [exact E | now symmetry]].
      * now left.
    + right. exists w. split; [now right | split; assumption].
Qed.

Lemma bumped_proofs (now : Z) (wid : string) (current : list Witness) :
  map proof (map (fun w => if String.eqb (id w) wid then Store.bump now w else w) current)
  = map proof current.
Proof.
  rewrite map_map. apply map_ext. intros w.
  destruct (String.eqb (id w) wid); reflexivity.
Qed.

Lemma afterProof_witnesses (t1 : Z) (wid : string) (world : World) :
  witnesses (Store.afterProof t1 wid world) =
  map (fun w => if String.eqb (id w) wid then Store.bump t1 w else w) (witnesses world).
Proof.
  unfold Store.afterProof.
  destruct (Store.lastBumped t1 wid (witnesses world)); reflexivity.
Qed.

Lemma afterProof_peerSends (t1 : Z) (wid : string) (world : World) (u : Witness) :
  In (UPDATE_WITNESS u) (peerSends (Store.afterProof t1 wid world)) ->
  In (UPDATE_WITNESS u) (peerSends world) \/
  exists w, In w (witnesses world) /\ id w = wid /\ u = Store.bump t1 w.
Proof.
  unfold Store.afterProof.
  destruct (Store.lastBumped t1 wid (witnesses world)) as [v|] eqn:Hl.
  - cbn [peerSends]. intros Hin. apply in_app_or in Hin.
    destruct Hin as [Hin | [Hin | []]]; [now left | right].
    injection Hin as Hin. subst v.
    unfold Store.lastBumped in Hl. apply lastBumped_from in Hl.
    destruct Hl as [Hl | Hl]; [discriminate | exact Hl].
  - intros Hin. left. destruct world; exact Hin.
Qed.

Lemma reWitness_known (fuel : nat) (clock : nat -> Z) (t0 t1 : Z)
    (during : World -> World) (witnessId : string) (world : World)
    (stored : Witness) (p : Proof) :
  findById witnessId (witnesses world) = Some stored ->
  Store.computeProofOfWork fuel clock
    ("rewitness:" ++ witnessId ++ ":" ++ JS.numberToString t0) = Some p ->
  Store.reWitness fuel clock t0 t1 during witnessId world =
  Some (Store.afterProof t1 witnessId
          (during (proofComputed
                     ("rewitness:" ++ witnessId ++ ":" ++ JS.numberToString t0) p world))).
Proof.
  intros Hf Hp. unfold Store.reWitness. rewrite Hf. cbv zeta. rewrite Hp. reflexivity.
Qed.

Lemma computeLoop_resolves (clock : nat -> Z) (start : Z) (text : string) (k : nat) :
  forall fuel n i,
    clock (S (i + k)) - start >= 1000 ->
    (k < fuel)%nat ->
    exists p, Store.computeLoop fuel clock start text n i = Some p.
Proof.
  induction k as [|k IH]; intros fuel n i Hc Hf;
    (destruct fuel as [|fuel]; [lia|]); cbn [Store.computeLoop]; cbv zeta.
  - rewrite Nat.add_0_r in Hc.
    destruct (clock (S i) - start >=? 1000) eqn:E; [eexists; reflexivity|].
    rewrite Z.geb_leb in E. apply Z.leb_gt in E. lia.
  - destruct (clock (S i) - start >=? 1000); [eexists; reflexivity|].
    apply IH; [|lia]. now replace (S i + k)%nat with (i + S k)%nat by lia.
Qed.

(** C5 (amended). A re-validation of a stored witness, on a clock that
    shows the second elapsed at some time check within the iterations
    allowed, runs to its end.  It computes a new proof over the payload
    "rewitness:<id>:<time>" but does not attach it: with [mid] the world when
    the proof resolves, the store afterwards is [mid]'s store with each
    witness of that id replaced by a fresh copy whose count is one higher and
    whose lastWitnessed is the current time, and that copy carries the proof
    the witness already had.  No stored proof changes, and every update sent
    to peers is such a copy. *)
Theorem reWitness_keeps_the_original_proof :
  forall fuel clock t0 t1 during witnessId world stored k,
    findById witnessId (witnesses world) = Some stored ->
    clock (S k) - clock 0%nat >= 1000 ->
    (k < fuel)%nat ->
    exists p,
      let payload := "rewitness:" ++ witnessId ++ ":" ++ JS.numberToString t0 in
      let mid := during (proofComputed payload p world) in
      let world' := Store.afterProof t1 witnessId mid in
      Store.computeProofOfWork fuel clock payload = Some p /\
      Store.reWitness fuel clock t0 t1 during witnessId world = Some world' /\
      witnesses world' =
        map (fun w => if String.eqb (id w) witnessId then Store.bump t1 w else w)
            (witnesses mid) /\
      map proof (witnesses world') = map proof (witnesses mid) /\
      (forall w, proof (Store.bump t1 w) = proof w /\
                 witnessCount (Store.bump t1 w) = witnessCount w + 1 /\
                 lastWitnessed (Store.bump t1 w) = t1) /\
      (forall u, In (UPDATE_WITNESS u) (peerSends world') ->
                 In (UPDATE_WITNESS u) (peerSends mid) \/
                 exists w, In w (witnesses mid) /\ id w = witnessId /\
                           u = Store.bump t1 w /\ proof u = proof w).
Proof.
  intros fuel clock t0 t1 during witnessId world stored k Hf Hc Hk.
  destruct (computeLoop_resolves clock (clock 0%nat)
              ("rewitness:" ++ witnessId ++ ":" ++ JS.numberToString t0)
              k fuel 0 0%nat Hc Hk) as [p Hp].
  fold (Store.computeProofOfWork fuel clock
          ("rewitness:" ++ witnessId ++ ":" ++ JS.numberToString t0)) in Hp.
  exists p. cbv zeta.
  split; [exact Hp|].
  split; [exact (reWitness_known fuel clock t0 t1 during witnessId world stored p Hf Hp)|].
  split; [apply afterProof_witnesses|].
  split; [rewrite afterProof_witnesses; apply bumped_proofs|].
  split; [intros w; repeat split|].
  intros u Hin. apply afterProof_peerSends in Hin.
  destruct Hin as [Hin | [w [Hw [Hid Hu]]]]; [now left | right].
  exists w. subst u. repeat split; assumption.
Qed.

(** The proof computed for re-witnessing "a1" at time 20 when the first time
    check shows the second elapsed. *)
Lemma rewitness_a1_proof :
  Store.computeProofOfWork 1 Sample.slowClock "rewitness:a1:20"
  = Some (mkProof 1 "-4bc52400").
Proof.
  rewrite (computeProofOfWork_first_check 0 Sample.slowClock "rewitness:a1:20")
    by (cbv; discriminate).
  rewrite accumulate_rewitness_a1. reflexivity.
Qed.

Lemma rewitness_a1_run :
  let world := mkWorld [Sample.witness "a1" 10 330100 2 100 None] [] true [] [] [] in
  Store.reWitness 1 Sample.slowClock 20 1020 (fun w => w) "a1" world =
  Some (Store.afterProof 1020 "a1"
          (proofComputed "rewitness:a1:20" (mkProof 1 "-4bc52400") world)).
Proof.
  intros world.
  exact (reWitness_known 1 Sample.slowClock 20 1020 (fun w => w) "a1" world
           (Sample.witness "a1" 10 330100 2 100 None) (mkProof 1 "-4bc52400")
           eq_refl rewitness_a1_proof).
Qed.

Lemma reWitness_keeps_the_original_proof_witness :
  let world := mkWorld [Sample.witness "a1" 10 330100 2 100 None] [] true [] [] [] in
  exists p,
    Store.computeProofOfWork 1 Sample.slowClock "rewitness:a1:20" = Some p /\
    Store.reWitness 1 Sample.slowClock 20 1020 (fun w => w) "a1" world
    = Some (Store.afterProof 1020 "a1" (proofComputed "rewitness:a1:20" p world)) /\
    map proof (witnesses (Store.afterProof 1020 "a1"
                            (proofComputed "rewitness:a1:20" p world)))
    = [Some Sample.helloProof].
Proof.
  intros world.
  destruct (reWitness_keeps_the_original_proof 1 Sample.slowClock 20 1020 (fun w => w)
              "a1" world (Sample.witness "a1" 10 330100 2 100 None) 0)
    as [p [Hp [Hr [_ [Hproofs _]]]]].
  - reflexivity.
  - cbv. discriminate.
  - lia.
  - exists p. split; [exact Hp | split; [exact Hr | exact Hproofs]].
Defined.

(** C5, as stated, fails: re-witnessing "a1" computes the new proof
    (nonce 1, hash "-4bc52400"), yet the updated record in the store, the
    update sent to peers and the record put on the relay all carry the proof
    the witness had before (nonce 1, hash "c543400"). *)
Lemma rewitnessed_copy_carries_the_old_proof :
  let world := mkWorld [Sample.witness "a1" 10 330100 2 100 None] [] true [] [] [] in
  option_map
    (fun w' => (map proof (witnesses w'),
                map (fun m => match m with
                              | UPDATE_WITNESS u | NEW_WITNESS u => proof u
                              end) (peerSends w'),
                map (fun kd => (fst kd, g_proofNonce (snd kd), g_proofHash (snd kd)))
                    (gunPuts w'),
                map snd (proofsComputed w')))
    (Store.reWitness 1 Sample.slowClock 20 1020 (fun w => w) "a1" world)
  = Some ([Some (mkProof 1 "c543400")],
          [Some (mkProof 1 "c543400")],
          [("a1", Some 1, Some "c543400"); ("a1-v3", Some 1, Some "c543400")],
          [mkProof 1 "-4bc52400"]).
Proof.
  intros world.
  pose proof rewitness_a1_run as Hr. cbv zeta in Hr. fold world in Hr.
  rewrite Hr. reflexivity.
Qed.

(** ** The proof-of-work gate *)

Lemma computeLoop_result (fuel : nat) (clock : nat -> Z) (start : Z) (text : string)
    (n : Z) (i : nat) (p : Proof) :
  Store.computeLoop fuel clock start text n i = Some p ->
  n + 1 <= nonce p /\
  hash p = JS.toString16 (Pow.accumulate text (nonce p - 1)).
Proof.
  revert n i. induction fuel as [|fuel IH]; intros n i H; [discriminate|].
  cbn [Store.computeLoop] in H. cbv zeta in H.
  destruct (clock (S i) - start >=? 1000).
  - injection H as H. subst p. cbn [nonce hash]. split; [lia|].
    now replace (n + 1 - 1) with n by lia.
  - apply IH in H. destruct H as [H1 H2]. split; [lia | exact H2].
Qed.

(** What verification decides for a proof made by computeProofOfWork of the
    same revision: the returned nonce is one past the nonce that was hashed,
    so the check compares the hashes of two consecutive nonces. *)
Lemma computed_proof_verifies_only_by_collision (fuel : nat) (clock : nat -> Z)
    (text : string) (p : Proof) :
  Store.computeProofOfWork fuel clock text = Some p ->
  1 <= nonce p /\
  Store.verifyProofOfWork text p =
  String.eqb (JS.toString16 (Pow.accumulate text (nonce p)))
             (JS.toString16 (Pow.accumulate text (nonce p - 1))).
Proof.
  unfold Store.computeProofOfWork. intros H.
  destruct (computeLoop_result _ _ _ _ _ _ _ H) as [H1 H2].
  split; [lia|]. rewrite verifyProofOfWork_eq, H2. reflexivity.
Qed.

Lemma bounded_computeLoop_verifies (fuel : nat) (clock : nat -> Z) (start : Z)
    (text : string) (n : Z) (i : nat) (p : Proof) :
  BoundedStore.computeLoop fuel clock start text n i = Some p ->
  BoundedStore.verifyProofOfWork text p = true.
Proof.
  revert n i. induction fuel as [|fuel IH]; intros n i H; [discriminate|].
  cbn [BoundedStore.computeLoop] in H. cbv zeta in H.
  destruct (clock (S i) - start >=? 1000).
  - injection H as H. subst p. unfold BoundedStore.verifyProofOfWork.
    cbn [nonce hash]. apply orb_true_iff. right. apply String.eqb_refl.
  - now apply IH in H.
Qed.

(** The later revision returns the nonce it hashed: its proofs verify, and it
    returns one as soon as the clock shows the second elapsed. *)
Lemma bounded_round_trip (fuel : nat) (clock : nat -> Z) (text : string) (p : Proof) :
  BoundedStore.computeProofOfWork fuel clock text = Some p ->
  BoundedStore.verifyProofOfWork text p = true.
Proof. apply bounded_computeLoop_verifies. Qed.

Lemma bounded_computeLoop_resolves (clock : nat -> Z) (start : Z) (text : string)
    (k : nat) :
  forall fuel n i,
    clock (S (i + k)) - start >= 1000 ->
    (k < fuel)%nat ->
    exists p, BoundedStore.computeLoop fuel clock start text n i = Some p.
Proof.
  induction k as [|k IH]; intros fuel n i Hc Hf;
    (destruct fuel as [|fuel]; [lia|]); cbn [BoundedStore.computeLoop]; cbv zeta.
  - rewrite Nat.add_0_r in Hc.
    destruct (clock (S i) - start >=? 1000) eqn:E; [eexists; reflexivity|].
    rewrite Z.geb_leb in E. apply Z.leb_gt in E. lia.
  - destruct (clock (S i) - start >=? 1000); [eexists; reflexivity|].
    apply IH; [|lia]. now replace (S i + k)%nat with (i + S k)%nat by lia.
Qed.

(** C3.  On the text "hello", with a clock whose first time check shows the
    second elapsed, computeProofOfWork hashes "hello0", increments the nonce
    and returns nonce 1 with that hash; verifyProofOfWork then hashes
    "hello1", gets another value and answers false.  Against the text "world"
    the same proof is rejected as well. *)
Theorem computed_proof_fails_verification :
  Store.computeProofOfWork 1 Sample.slowClock "hello" = Some (mkProof 1 "-4d266e00") /\
  Store.verifyProofOfWork "hello" (mkProof 1 "-4d266e00") = false /\
  Store.verifyProofOfWork "world" (mkProof 1 "-4d266e00") = false.
Proof.
  split; [|split].
  - rewrite (computeProofOfWork_first_check 0 Sample.slowClock "hello")
      by (cbv; discriminate).
    rewrite accumulate_hello_0. reflexivity.
  - rewrite verifyProofOfWork_eq. cbn [nonce hash].
    rewrite accumulate_hello_1. reflexivity.
  - rewrite verifyProofOfWork_eq. cbn [nonce hash].
    rewrite accumulate_world_1. reflexivity.
Qed.

(** A negative accumulator is written with a minus sign. *)
Lemma toString16_negative (n : Z) :
  n < 0 -> exists digits, JS.toString16 n = String "-" digits.
Proof.
  intros H. unfold JS.toString16, JS.toStringRadix.
  apply Z.ltb_lt in H. rewrite H. eexists. reflexivity.
Qed.

(** C9.  For "hello" and nonce 0 the accumulator is -1294364160.  The hash
    string computeProofOfWork returns for it is the signed "-4d266e00", not
    the unsigned encoding "b2d99200"; verifyProofOfWork recomputes the signed
    string too, so it accepts "-4d266e00" and rejects "b2d99200" for that
    nonce. *)
Theorem negative_accumulator_is_encoded_signed :
  Pow.accumulate "hello" 0 = -1294364160 /\
  Store.computeProofOfWork 1 Sample.slowClock "hello" = Some (mkProof 1 "-4d266e00") /\
  JS.toString16 (JS.toUint32 (-1294364160)) = "b2d99200" /\
  Store.verifyProofOfWork "hello" (mkProof 0 "-4d266e00") = true /\
  Store.verifyProofOfWork "hello" (mkProof 0 "b2d99200") = false.
Proof.
  split; [exact accumulate_hello_0|].
  split.
  { rewrite (computeProofOfWork_first_check 0 Sample.slowClock "hello")
      by (cbv; discriminate).
    rewrite accumulate_hello_0. reflexivity. }
  split; [reflexivity|].
  split; rewrite verifyProofOfWork_eq; cbn [nonce hash];
    rewrite accumulate_hello_0; reflexivity.
Qed.

(** ** Sorting and capacity eviction *)

Section SortFacts.

Context {A : Type}.
Variable compare : A -> A -> Z.

(** [a] may stand before [b]. *)
Let before (a b : A) : Prop := compare a b <= 0.

Hypothesis before_trans : forall a b c, before a b -> before b c -> before a c.
Hypothesis before_total : forall a b, compare a b > 0 -> before b a.

Lemma insertSorted_perm (a : A) (l : list A) :
  Permutation (insertSorted compare a l) (a :: l).
Proof.
  induction l as [|b l IH]; simpl; [reflexivity|].
  destruct (compare a b >? 0); [|reflexivity].
  rewrite IH. apply perm_swap.
Qed.

Lemma sortWith_perm (l : list A) : Permutation (sortWith compare l) l.
Proof.
  induction l as [|a l IH]; simpl; [reflexivity|].
  rewrite insertSorted_perm. now apply perm_skip.
Qed.

Lemma insertSorted_sorted (a : A) (l : list A) :
  StronglySorted before l -> StronglySorted before (insertSorted compare a l).
Proof.
  induction l as [|b l IH]; intros Hs; simpl.
  - constructor; constructor.
  - inversion Hs as [|b' l' Hl Hb]; subst.
    destruct (compare a b >? 0) eqn:E.
    + constructor; [now apply IH|].
      apply Forall_forall. intros c Hc.
      apply (Permutation_in _ (insertSorted_perm a l)) in Hc.
      destruct Hc as [Hc|Hc].
      * subst c. apply before_total. rewrite Z.gtb_ltb in E.
        apply Z.ltb_lt in E. lia.
      * rewrite Forall_forall in Hb. now apply Hb.
    + assert (Hab : before a b).
      { unfold before. rewrite Z.gtb_ltb in E. apply Z.ltb_ge in E. exact E. }
      constructor; [exact Hs|].
      constructor; [exact Hab|].
      rewrite Forall_forall in Hb |- *. intros c Hc.
      apply before_trans with b; [exact Hab | now apply Hb].
Qed.

Lemma sortWith_sorted (l : list A) : StronglySorted before (sortWith compare l).
Proof.
  induction l as [|a l IH]; simpl; [constructor | now apply insertSorted_sorted].
Qed.

Lemma sorted_app_before (l1 l2 : list A) :
  StronglySorted before (l1 ++ l2) ->
  forall a b, In a l1 -> In b l2 -> before a b.
Proof.
  induction l1 as [|c l1 IH]; intros Hs a b Ha Hb; [destruct Ha|].
  simpl in Hs. inversion Hs as [|c' l' Hl Hc]; subst.
  destruct Ha as [Ha|Ha].
  - subst c. rewrite Forall_forall in Hc. apply Hc. apply in_or_app. now right.
  - now apply IH.
Qed.

(** Any split of the sorted array puts the front part before the rest. *)
Lemma sortWith_split (n : nat) (l : list A) :
  Permutation (firstn n (sortWith compare l) ++ skipn n (sortWith compare l)) l /\
  forall a b, In a (firstn n (sortWith compare l)) ->
              In b (skipn n (sortWith compare l)) -> compare a b <= 0.
Proof.
  split.
  - rewrite firstn_skipn. apply sortWith_perm.
  - apply sorted_app_before. rewrite firstn_skipn. apply sortWith_sorted.
Qed.

End SortFacts.

Lemma sortWith_length {A : Type} (compare : A -> A -> Z) (l : list A) :
  List.length (sortWith compare l) = List.length l.
Proof. apply Permutation_length, sortWith_perm. Qed.

(** C8 (amended).  With [active] the witnesses that remain after the expiry
    filter and more of them than the limit: the cleanup of the store with a
    memory limit keeps exactly [limit] of them and removes the rest, and no
    removed witness was touched (max of lastWitnessed and createdAt) later
    than a kept one; the cleanup of the emergency store also keeps exactly
    [limit] (for a positive limit) and removes the rest, but there no removed
    witness was created later than a kept one -- it evicts by createdAt. *)
Theorem capacity_eviction_keeps_the_latest :
  forall limit now current,
    ((limit < List.length (BoundedStore.getActiveWitnesses now
                             (map (Store.decayed now) current)))%nat ->
     exists removed,
       Permutation (BoundedStore.cleanupWith limit now current ++ removed)
                   (BoundedStore.getActiveWitnesses now (map (Store.decayed now) current)) /\
       List.length (BoundedStore.cleanupWith limit now current) = limit /\
       forall kept gone,
         In kept (BoundedStore.cleanupWith limit now current) ->
         In gone removed ->
         BoundedStore.touched gone <= BoundedStore.touched kept) /\
    ((limit < List.length (filter (fun w => expiresAt w >? now) current))%nat ->
     (0 < limit)%nat ->
     exists removed,
       Permutation (fst (Emergency.emergencyCleanupWith limit now current) ++ removed)
                   (filter (fun w => expiresAt w >? now) current) /\
       List.length (fst (Emergency.emergencyCleanupWith limit now current)) = limit /\
       forall kept gone,
         In kept (fst (Emergency.emergencyCleanupWith limit now current)) ->
         In gone removed ->
         createdAt gone <= createdAt kept).
Proof.
  intros limit now current. split.
  - intros Hlt. unfold BoundedStore.cleanupWith.
    set (active := BoundedStore.getActiveWitnesses now (map (Store.decayed now) current)) in *.
    apply Nat.ltb_lt in Hlt. rewrite Hlt. apply Nat.ltb_lt in Hlt.
    exists (skipn limit (sortWith BoundedStore.byTouchedDesc active)).
    assert (T : forall a b c : Witness,
               BoundedStore.byTouchedDesc a b <= 0 ->
               BoundedStore.byTouchedDesc b c <= 0 ->
               BoundedStore.byTouchedDesc a c <= 0)
      by (unfold BoundedStore.byTouchedDesc; intros; lia).
    assert (O : forall a b : Witness,
               BoundedStore.byTouchedDesc a b > 0 ->
               BoundedStore.byTouchedDesc b a <= 0)
      by (unfold BoundedStore.byTouchedDesc; intros; lia).
    destruct (sortWith_split BoundedStore.byTouchedDesc T O limit active) as [P S].
    split; [exact P|]. split.
    + rewrite length_firstn, sortWith_length. lia.
    + intros kept gone Hk Hg. specialize (S kept gone Hk Hg).
      unfold BoundedStore.byTouchedDesc in S. lia.
  - intros Hlt Hpos. unfold Emergency.emergencyCleanupWith.
    set (active := filter (fun w => expiresAt w >? now) current) in *.
    apply Nat.ltb_lt in Hlt. rewrite Hlt. apply Nat.ltb_lt in Hlt.
    cbn [fst]. unfold sliceLast.
    destruct limit as [|n]; [lia|].
    rewrite sortWith_length.
    set (k := (List.length active - S n)%nat).
    exists (firstn k (sortWith Emergency.byCreatedAsc active)).
    assert (T : forall a b c : Witness,
               Emergency.byCreatedAsc a b <= 0 ->
               Emergency.byCreatedAsc b c <= 0 ->
               Emergency.byCreatedAsc a c <= 0)
      by (unfold Emergency.byCreatedAsc; intros; lia).
    assert (O : forall a b : Witness,
               Emergency.byCreatedAsc a b > 0 ->
               Emergency.byCreatedAsc b a <= 0)
      by (unfold Emergency.byCreatedAsc; intros; lia).
    destruct (sortWith_split Emergency.byCreatedAsc T O k active) as [P S].
    split; [|split].
    + eapply Permutation_trans; [apply Permutation_app_comm | exact P].
    + rewrite length_skipn, sortWith_length. unfold k. lia.
    + intros kept gone Hk Hg. specialize (S gone kept Hg Hk).
      unfold Emergency.byCreatedAsc in S. lia.
Qed.

Lemma capacity_eviction_keeps_the_latest_witness :
  map id (BoundedStore.cleanupWith 2 1000 Sample.trio) = ["a"; "c"] /\
  (exists removed,
     Permutation (BoundedStore.cleanupWith 2 1000 Sample.trio ++ removed)
                 (BoundedStore.getActiveWitnesses 1000
                    (map (Store.decayed 1000) Sample.trio)) /\
     List.length (BoundedStore.cleanupWith 2 1000 Sample.trio) = 2%nat /\
     forall kept gone,
       In kept (BoundedStore.cleanupWith 2 1000 Sample.trio) ->
       In gone removed ->
       BoundedStore.touched gone <= BoundedStore.touched kept) /\
  (exists removed,
     Permutation (fst (Emergency.emergencyCleanupWith 2 1000 Sample.trio) ++ removed)
                 (filter (fun w => expiresAt w >? 1000) Sample.trio) /\
     List.length (fst (Emergency.emergencyCleanupWith 2 1000 Sample.trio)) = 2%nat /\
     forall kept gone,
       In kept (fst (Emergency.emergencyCleanupWith 2 1000 Sample.trio)) ->
       In gone removed ->
       createdAt gone <= createdAt kept).
Proof.
  destruct (capacity_eviction_keeps_the_latest 2 1000 Sample.trio) as [H1 H2].
  split; [reflexivity|]. split.
  - apply H1. vm_compute. lia.
  - apply H2; [vm_compute; lia | lia].
Defined.

(** C8, as stated, fails for the emergency store: of fifty-one active
    witnesses with the limit of fifty, emergencyCleanup removes the one
    created first although it was re-witnessed last, so the entry with the
    largest max(lastWitnessed, createdAt) goes and the one with the smallest
    stays. *)
Lemma emergency_evicts_the_most_recently_touched :
  List.length (filter (fun w => expiresAt w >? 2000) Sample.crowd) = 51%nat /\
  snd (Emergency.emergencyCleanup 2000 Sample.crowd) = ["1"] /\
  map BoundedStore.touched
      (filter (fun w => String.eqb (id w) "1") Sample.crowd) = [1000] /\
  List.length (fst (Emergency.emergencyCleanup 2000 Sample.crowd)) = 50%nat /\
  forallb (fun w => BoundedStore.touched w <? 1000)
          (fst (Emergency.emergencyCleanup 2000 Sample.crowd)) = true /\
  existsb (fun w => BoundedStore.touched w =? 2)
          (fst (Emergency.emergencyCleanup 2000 Sample.crowd)) = true.
Proof. vm_compute. repeat split. Qed.

(** * Further properties of the stores *)

(** ** Numbers of the proof-of-work hash *)

Lemma toInt32_range (x : Z) : -2147483648 <= JS.toInt32 x < 2147483648.
Proof.
  unfold JS.toInt32.
  change (2 ^ 31) with 2147483648. change (2 ^ 32) with 4294967296.
  pose proof (Z.mod_pos_bound (x + 2147483648) 4294967296). lia.
Qed.

Lemma mixRounds_range (h : Z) : -2147483648 <= Pow.mixRounds h < 2147483648.
Proof.
  unfold Pow.mixRounds. change 10000%N with (N.succ 9999).
  rewrite N.iter_succ. unfold Pow.mixRound at 1. unfold JS.bitand.
  apply toInt32_range.
Qed.

(** X1. Whatever the text and the nonce, the accumulator the two loops leave
    is a signed 32-bit integer; [hash >>> 0] is the accumulator itself when
    it is not negative and the accumulator plus 2^32 when it is, so the
    signed and the unsigned hash strings differ only for negative
    accumulators. *)
Theorem accumulator_is_a_signed_32_bit_integer :
  forall text nonce,
    -2147483648 <= Pow.accumulate text nonce < 2147483648 /\
    (0 <= Pow.accumulate text nonce ->
     JS.toUint32 (Pow.accumulate text nonce) = Pow.accumulate text nonce /\
     JS.toString16 (JS.toUint32 (Pow.accumulate text nonce))
     = JS.toString16 (Pow.accumulate text nonce)) /\
    (Pow.accumulate text nonce < 0 ->
     JS.toUint32 (Pow.accumulate text nonce) = Pow.accumulate text nonce + 4294967296).
Proof.
  intros text nonce.
  assert (R : -2147483648 <= Pow.accumulate text nonce < 2147483648)
    by (unfold Pow.accumulate; apply mixRounds_range).
  set (h := Pow.accumulate text nonce) in *. clearbody h.
  split; [exact R|]. unfold JS.toUint32. change (2 ^ 32) with 4294967296. split.
  - intros H. assert (E : h mod 4294967296 = h) by (apply Z.mod_small; lia).
    rewrite E. split; reflexivity.
  - intros H. symmetry. apply Z.mod_unique with (q := -1); lia.
Qed.

(** ** computeProofOfWork *)

Lemma computeLoop_first_elapsed (clock : nat -> Z) (start : Z) (text : string) (k : nat) :
  forall fuel n i,
    (forall j, (j < k)%nat -> clock (S (i + j)) - start < 1000) ->
    1000 <= clock (S (i + k)) - start ->
    (k < fuel)%nat ->
    Store.computeLoop fuel clock start text n i
    = Some (mkProof (n + Z.of_nat k + 1)
                    (JS.toString16 (Pow.accumulate text (n + Z.of_nat k)))).
Proof.
  induction k as [|k IH]; intros fuel n i Hlt Hge Hf;
    (destruct fuel as [|fuel]; [lia|]); cbn [Store.computeLoop]; cbv zeta.
  - rewrite Nat.add_0_r in Hge.
    assert (E : (clock (S i) - start >=? 1000) = true)
      by (rewrite Z.geb_leb; apply Z.leb_le; exact Hge).
    rewrite E. replace (n + Z.of_nat 0) with n by (cbn; lia). reflexivity.
  - assert (E : (clock (S i) - start >=? 1000) = false).
    { rewrite Z.geb_leb. apply Z.leb_gt.
      specialize (Hlt 0%nat ltac:(lia)). now rewrite Nat.add_0_r in Hlt. }
    rewrite E.
    rewrite (IH fuel (n + 1) (S i)).
    + replace (n + 1 + Z.of_nat k) with (n + Z.of_nat (S k)) by lia. reflexivity.
    + intros j Hj. specialize (Hlt (S j) ltac:(lia)).
      now replace (S i + j)%nat with (i + S j)%nat by lia.
    + now replace (S i + k)%nat with (i + S k)%nat by lia.
    + lia.
Qed.

Lemma computeLoop_never_elapsed (clock : nat -> Z) (start : Z) (text : string) :
  forall fuel n i,
    (forall j, (j < fuel)%nat -> clock (S (i + j)) - start < 1000) ->
    Store.computeLoop fuel clock start text n i = None.
Proof.
  induction fuel as [|fuel IH]; intros n i Hlt; [reflexivity|].
  cbn [Store.computeLoop]. cbv zeta.
  assert (E : (clock (S i) - start >=? 1000) = false).
  { rewrite Z.geb_leb. apply Z.leb_gt.
    specialize (Hlt 0%nat ltac:(lia)). now rewrite Nat.add_0_r in Hlt. }
  rewrite E. apply IH. intros j Hj. specialize (Hlt (S j) ltac:(lia)).
  now replace (S i + j)%nat with (i + S j)%nat by lia.
Qed.

(** X2. computeProofOfWork resolves at the first time check that shows 1000
    ms elapsed since the start: if that is check number [k] (counted from 0)
    and at least [k + 1] iterations are allowed, the proof returned has nonce
    [k + 1] and the hash string of nonce [k]; as long as no check shows the
    second elapsed, nothing is returned. *)
Theorem computeProofOfWork_resolves_at_first_elapsed_check :
  forall clock text k fuel,
    (forall j, (j < k)%nat -> clock (S j) - clock 0%nat < 1000) ->
    1000 <= clock (S k) - clock 0%nat ->
    (Store.computeProofOfWork (S (k + fuel)) clock text
     = Some (mkProof (Z.of_nat k + 1)
                     (JS.toString16 (Pow.accumulate text (Z.of_nat k))))) /\
    Store.computeProofOfWork k clock text = None.
Proof.
  intros clock text k fuel Hlt Hge. unfold Store.computeProofOfWork. split.
  - rewrite (computeLoop_first_elapsed clock (clock 0%nat) text k (S (k + fuel)) 0 0%nat);
      [reflexivity | exact Hlt | exact Hge | lia].
  - apply computeLoop_never_elapsed. exact Hlt.
Qed.

Lemma computeProofOfWork_resolves_at_first_elapsed_check_witness :
  let clock := fun i : nat => Z.of_nat i * 400 in
  (Store.computeProofOfWork (S (2 + 5)) clock "hello"
   = Some (mkProof (Z.of_nat 2 + 1)
                   (JS.toString16 (Pow.accumulate "hello" (Z.of_nat 2))))) /\
  Store.computeProofOfWork 2 clock "hello" = None.
Proof.
  intros clock.
  apply (computeProofOfWork_resolves_at_first_elapsed_check clock "hello" 2 5).
  - intros j Hj. unfold clock.
    destruct j as [|[|j]]; [cbv; reflexivity | cbv; reflexivity | lia].
  - cbv. discriminate.
Defined.

(** ** calculateCurrentWitnessCount and calculateExpiration *)

(** X3. The effective count is at least 1 for every witness and every clock
    reading, and it never grows as time passes: at a later reading it is at
    most what it was at an earlier one. *)
Theorem effective_count_floor_and_monotone :
  forall now later w,
    now <= later ->
    1 <= Store.calculateCurrentWitnessCount now w /\
    Store.calculateCurrentWitnessCount later w
    <= Store.calculateCurrentWitnessCount now w.
Proof.
  intros now later w H.
  unfold Store.calculateCurrentWitnessCount, Store.DEV_MODE.
  replace (2 * 60 * 1000) with 120000 by reflexivity.
  assert (D : (now - lastWitnessed w) / 120000 <= (later - lastWitnessed w) / 120000)
    by (apply Z.div_le_mono; lia).
  split; lia.
Qed.

Lemma effective_count_floor_and_monotone_witness :
  1 <= Store.calculateCurrentWitnessCount 130010 (Sample.witness "a1" 10 375010 5 10 None) /\
  Store.calculateCurrentWitnessCount 250010 (Sample.witness "a1" 10 375010 5 10 None)
  <= Store.calculateCurrentWitnessCount 130010 (Sample.witness "a1" 10 375010 5 10 None).
Proof.
  apply (effective_count_floor_and_monotone 130010 250010
           (Sample.witness "a1" 10 375010 5 10 None)).
  lia.
Defined.

(** X4. For a count that is not negative, calculateExpiration gives a time
    between 240 and 900 seconds after [lastWitnessed]; when [lastWitnessed]
    is no more than five minutes old it is [lastWitnessed] plus five minutes
    plus 15 seconds per count, the bonus capped at ten minutes, so counts of
    40 and more all give the same time; and a higher count never gives an
    earlier time. *)
Theorem expiration_bounds_bonus_and_cap :
  forall now count lastWitnessed,
    0 <= count ->
    lastWitnessed + 240000 <= Store.calculateExpiration now count lastWitnessed
      <= lastWitnessed + 900000 /\
    (now - lastWitnessed <= 300000 ->
     Store.calculateExpiration now count lastWitnessed
     = lastWitnessed + 300000 + Z.min (count * 15000) 600000) /\
    (40 <= count ->
     Store.calculateExpiration now count lastWitnessed
     = Store.calculateExpiration now 40 lastWitnessed) /\
    (forall higher, count <= higher ->
     Store.calculateExpiration now count lastWitnessed
     <= Store.calculateExpiration now higher lastWitnessed).
Proof.
  intros now count lw Hc.
  unfold Store.calculateExpiration, Store.DEV_MODE.
  replace (5 * 60 * 1000) with 300000 by reflexivity.
  replace (10 * 60 * 1000) with 600000 by reflexivity.
  assert (Hb : forall c, 0 <= c ->
             300000 <= 300000 + Z.min (c * 15 * 1000) 600000 <= 900000) by (intros; lia).
  assert (Hd : forall v, 300000 <= v <= 900000 -> 240000 <= v * 4 / 5 <= 720000).
  { intros v Hv. split.
    - apply Z.div_le_lower_bound; lia.
    - apply Z.div_le_upper_bound; lia. }
  split; [|split; [|split]].
  - specialize (Hb count Hc). specialize (Hd _ Hb).
    destruct (now - lw >? 300000); lia.
  - intros Hfresh.
    assert (E : (now - lw >? 300000) = false)
      by (rewrite Z.gtb_ltb; apply Z.ltb_ge; lia).
    rewrite E. lia.
  - intros H40.
    replace (Z.min (count * 15 * 1000) 600000) with 600000 by lia.
    replace (Z.min (40 * 15 * 1000) 600000) with 600000 by lia.
    reflexivity.
  - intros higher Hh.
    assert (M : 300000 + Z.min (count * 15 * 1000) 600000
                <= 300000 + Z.min (higher * 15 * 1000) 600000) by lia.
    destruct (now - lw >? 300000); [|lia].
    assert (D : (300000 + Z.min (count * 15 * 1000) 600000) * 4 / 5
                <= (300000 + Z.min (higher * 15 * 1000) 600000) * 4 / 5)
      by (apply Z.div_le_mono; lia).
    lia.
Qed.

Lemma expiration_bounds_bonus_and_cap_witness :
  Store.calculateExpiration 1000 3 1000 = 1000 + 300000 + Z.min (3 * 15000) 600000.
Proof.
  destruct (expiration_bounds_bonus_and_cap 1000 3 1000) as [_ [H _]].
  - lia.
  - apply H. lia.
Defined.

(** ** getActiveWitnesses *)

(** X5. getActiveWitnesses keeps exactly the witnesses whose expiresAt is
    after the clock reading (a witness expiring at that very reading is
    dropped), in their order; filtering twice changes nothing, and filtering
    at a later time what was filtered at an earlier time is the same as
    filtering once at the later time. *)
Theorem active_filter_composes :
  forall now later witnessArray,
    now <= later ->
    (forall w, In w (Store.getActiveWitnesses now witnessArray) <->
               In w witnessArray /\ now < expiresAt w) /\
    Store.getActiveWitnesses now (Store.getActiveWitnesses now witnessArray)
    = Store.getActiveWitnesses now witnessArray /\
    Store.getActiveWitnesses later (Store.getActiveWitnesses now witnessArray)
    = Store.getActiveWitnesses later witnessArray.
Proof.
  intros now later l H. unfold Store.getActiveWitnesses.
  assert (C : forall t1 t2, t1 <= t2 ->
             filter (fun w => expiresAt w >? t2) (filter (fun w => expiresAt w >? t1) l)
             = filter (fun w => expiresAt w >? t2) l).
  { intros t1 t2 Ht. induction l as [|a l IH]; [reflexivity|]. cbn [filter].
    destruct (expiresAt a >? t1) eqn:E1; cbn [filter].
    - rewrite IH. reflexivity.
    - assert (E2 : (expiresAt a >? t2) = false).
      { rewrite Z.gtb_ltb in *. apply Z.ltb_ge in E1. apply Z.ltb_ge. lia. }
      rewrite E2. exact IH. }
  split; [|split].
  - intros w. rewrite filter_In, Z.gtb_ltb, Z.ltb_lt. reflexivity.
  - apply C. lia.
  - apply C. exact H.
Qed.

Lemma active_filter_composes_witness :
  Store.getActiveWitnesses 200 (Store.getActiveWitnesses 100 Sample.trio)
  = Store.getActiveWitnesses 200 Sample.trio.
Proof.
  destruct (active_filter_composes 100 200 Sample.trio) as [_ [_ H]].
  - lia.
  - exact H.
Defined.

(** ** reWitness *)

Lemma bumped_ids (now : Z) (wid : string) (current : list Witness) :
  map id (map (fun w => if String.eqb (id w) wid then Store.bump now w else w) current)
  = map id current.
Proof.
  rewrite map_map. apply map_ext. intros w.
  destruct (String.eqb (id w) wid); reflexivity.
Qed.

Lemma bumped_nothing (now : Z) (wid : string) (current : list Witness) :
  findById wid current = None ->
  map (fun w => if String.eqb (id w) wid then Store.bump now w else w) current = current /\
  Store.lastBumped now wid current = None.
Proof.
  unfold findById, Store.lastBumped.
  assert (G : forall acc,
             find (fun w => String.eqb (id w) wid) current = None ->
             map (fun w => if String.eqb (id w) wid then Store.bump now w else w) current
             = current /\
             fold_left (fun acc w => if String.eqb (id w) wid
                                     then Some (Store.bump now w) else acc) current acc
             = acc).
  { induction current as [|a l IH]; intros acc H; cbn [find map fold_left] in *;
      [split; reflexivity|].
    destruct (String.eqb (id a) wid); [discriminate|].
    destruct (IH acc H) as [E1 E2]. now rewrite E1, E2. }
  intros H. exact (G None H).
Qed.

Lemma lastBumped_unique (now : Z) (wid : string) (current : list Witness) (m : Witness) :
  NoDup (map id current) ->
  findById wid current = Some m ->
  Store.lastBumped now wid current = Some (Store.bump now m).
Proof.
  unfold findById, Store.lastBumped.
  induction current as [|a l IH]; intros Hn Hf; cbn [find fold_left map] in *;
    [discriminate|].
  inversion Hn as [|? ? Hnot Hn']; subst.
  destruct (String.eqb (id a) wid) eqn:E.
  - injection Hf as Hf. subst a. apply String.eqb_eq in E.
    assert (Hnone : findById wid l = None).
    { apply findById_none. intros w Hw Hid. apply Hnot. rewrite E, <- Hid.
      now apply in_map. }
    assert (G : forall acc,
               fold_left (fun acc w => if String.eqb (id w) wid
                                       then Some (Store.bump now w) else acc) l acc
               = acc).
    { clear - Hnone. unfold findById in Hnone.
      induction l as [|b l IH]; intros acc; cbn [find fold_left] in *; [reflexivity|].
      destruct (String.eqb (id b) wid); [discriminate | now apply IH]. }
    apply G.
  - now apply IH.
Qed.

(** X6. When the proof of work of a re-validation resolves, the witnesses of
    the given id are replaced and nothing else: the ids in the store and
    their order stay as they are, witnesses with another id are untouched,
    and each replaced witness gets lastWitnessed set to the current time and
    an expiry of five minutes plus the capped bonus of its new count after
    it -- later than the current time for a count that is not negative. *)
Theorem reWitness_replaces_only_the_witnessed :
  forall fuel clock t0 t1 during witnessId world stored p,
    findById witnessId (witnesses world) = Some stored ->
    Store.computeProofOfWork fuel clock
      ("rewitness:" ++ witnessId ++ ":" ++ JS.numberToString t0) = Some p ->
    exists world',
      Store.reWitness fuel clock t0 t1 during witnessId world = Some world' /\
      let mid := during (proofComputed
                           ("rewitness:" ++ witnessId ++ ":" ++ JS.numberToString t0)
                           p world) in
      map id (witnesses world') = map id (witnesses mid) /\
      (forall w, In w (witnesses mid) -> id w <> witnessId -> In w (witnesses world')) /\
      (forall w', In w' (witnesses world') -> id w' = witnessId ->
         lastWitnessed w' = t1 /\
         expiresAt w' = t1 + 300000 + Z.min (witnessCount w' * 15000) 600000 /\
         (0 <= witnessCount w' -> t1 < expiresAt w')).
Proof.
  intros fuel clock t0 t1 during witnessId world stored p Hf Hp.
  eexists. split; [exact (reWitness_known _ _ _ _ _ _ _ _ _ Hf Hp)|].
  cbv zeta. rewrite afterProof_witnesses.
  set (mid := during _). split; [apply bumped_ids|]. split.
  - intros w Hw Hid. apply in_map_iff. exists w. split; [|exact Hw].
    apply String.eqb_neq in Hid. now rewrite Hid.
  - intros w' Hw' Hid. apply in_map_iff in Hw'. destruct Hw' as [w [E Hw]].
    destruct (String.eqb (id w) witnessId) eqn:Eid.
    + subst w'. unfold Store.bump. cbn [lastWitnessed expiresAt witnessCount].
      unfold Store.calculateExpiration, Store.DEV_MODE.
      replace (t1 - t1) with 0 by lia.
      replace (0 >? 5 * 60 * 1000) with false by reflexivity.
      replace (5 * 60 * 1000) with 300000 by reflexivity.
      replace (10 * 60 * 1000) with 600000 by reflexivity.
      split; [reflexivity|]. split; lia.
    + subst w'. apply String.eqb_neq in Eid. contradiction.
Qed.

Lemma reWitness_replaces_only_the_witnessed_witness :
  let world := mkWorld [Sample.witness "a1" 10 330100 2 100 None] [] true [] [] [] in
  exists world',
    Store.reWitness 1 Sample.slowClock 20 1020 (fun w => w) "a1" world = Some world' /\
    map id (witnesses world') = ["a1"].
Proof.
  intros world.
  destruct (reWitness_replaces_only_the_witnessed 1 Sample.slowClock 20 1020 (fun w => w)
              "a1" world (Sample.witness "a1" 10 330100 2 100 None)
              (mkProof 1 "-4bc52400") eq_refl rewitness_a1_proof)
    as [world' [Hr [Hids _]]].
  exists world'. split; [exact Hr | exact Hids].
Defined.

(** X7. What a re-validation writes.  If the witness is still stored (ids
    being unique) when the proof resolves, exactly one update is sent to the
    peers, one is posted to the tabs when there is a tab channel, and the
    relay gets two puts of the same record, under the id and under the
    versioned key, with lastUpdate the current time and updateSeq the new
    count.  If the witness has gone meanwhile, the store is left as it is and
    nothing is sent, posted or put. *)
Theorem reWitness_writes :
  forall t1 witnessId mid,
    (forall m,
       NoDup (map id (witnesses mid)) ->
       findById witnessId (witnesses mid) = Some m ->
       let u := Store.bump t1 m in
       peerSends (Store.afterProof t1 witnessId mid)
       = (peerSends mid ++ [UPDATE_WITNESS u])%list /\
       tabPosts (Store.afterProof t1 witnessId mid)
       = (if syncChannel mid then (tabPosts mid ++ [UPDATE_WITNESS u])%list
          else tabPosts mid) /\
       gunPuts (Store.afterProof t1 witnessId mid)
       = (gunPuts mid ++
          [(witnessId, Store.gunDataOf u t1);
           ((witnessId ++ "-v" ++ JS.numberToString (witnessCount m + 1))%string,
            Store.gunDataOf u t1)])%list /\
       g_lastUpdate (Store.gunDataOf u t1) = Some t1 /\
       g_updateSeq (Store.gunDataOf u t1) = Some (witnessCount m + 1)) /\
    (findById witnessId (witnesses mid) = None ->
     Store.afterProof t1 witnessId mid = mid).
Proof.
  intros t1 witnessId mid. split.
  - intros m Hn Hf. cbv zeta. unfold Store.afterProof.
    rewrite (lastBumped_unique t1 witnessId (witnesses mid) m Hn Hf).
    cbn [peerSends tabPosts gunPuts]. repeat split.
  - intros Hf. unfold Store.afterProof.
    destruct (bumped_nothing t1 witnessId (witnesses mid) Hf) as [E1 E2].
    rewrite E1, E2. destruct mid; reflexivity.
Qed.

Lemma reWitness_writes_witness :
  let mid := mkWorld [Sample.witness "a1" 10 330100 2 100 None] [] true [] [] [] in
  peerSends (Store.afterProof 1020 "a1" mid)
  = [UPDATE_WITNESS (Store.bump 1020 (Sample.witness "a1" 10 330100 2 100 None))] /\
  Store.afterProof 1020 "zz" mid = mid.
Proof.
  intros mid.
  destruct (reWitness_writes 1020 "a1" mid) as [H _].
  destruct (reWitness_writes 1020 "zz" mid) as [_ H'].
  split.
  - destruct (H (Sample.witness "a1" 10 330100 2 100 None)) as [E _].
    + cbn. constructor; [intros [] | constructor].
    + reflexivity.
    + exact E.
  - apply H'. reflexivity.
Defined.

(** ** Versioned keys *)

Lemma append_assoc (a b c : string) : (a ++ b) ++ c = a ++ (b ++ c).
Proof. induction a as [|x a IH]; cbn [append]; [reflexivity | now rewrite IH]. Qed.

Lemma append_empty (a : string) : a ++ "" = a.
Proof. induction a as [|x a IH]; cbn [append]; [reflexivity | now rewrite IH]. Qed.

Lemma rev_acc (s acc : string) : JS.rev s acc = JS.rev s "" ++ acc.
Proof.
  revert acc. induction s as [|c s IH]; intros acc; cbn [JS.rev]; [reflexivity|].
  rewrite (IH (String c acc)), (IH (String c "")).
  rewrite append_assoc. reflexivity.
Qed.

Lemma rev_app (a b : string) : JS.rev (a ++ b) "" = JS.rev b "" ++ JS.rev a "".
Proof.
  induction a as [|c a IH]; cbn [append JS.rev].
  - now rewrite append_empty.
  - rewrite (rev_acc (a ++ b)), (rev_acc a), IH.
    now rewrite append_assoc.
Qed.

Lemma allDigits_app (a b : string) :
  allDigits (a ++ b) = allDigits a && allDigits b.
Proof.
  induction a as [|c a IH]; cbn [append allDigits]; [reflexivity|].
  rewrite IH. apply andb_assoc.
Qed.

Lemma allDigits_rev (s : string) : allDigits (JS.rev s "") = allDigits s.
Proof.
  induction s as [|c s IH]; cbn [JS.rev allDigits]; [reflexivity|].
  rewrite rev_acc, allDigits_app, IH. cbn [allDigits].
  rewrite andb_true_r. apply andb_comm.
Qed.

Lemma dropDigits_app (s rest : string) :
  allDigits s = true -> JS.dropDigits (s ++ rest) = JS.dropDigits rest.
Proof.
  induction s as [|c s IH]; cbn [append allDigits JS.dropDigits]; intros H;
    [reflexivity|].
  apply andb_true_iff in H. destruct H as [Hc Hs]. rewrite Hc. now apply IH.
Qed.

Lemma digitChar_isDigit (d : Z) : 0 <= d < 10 -> JS.isDigit (JS.digitChar d) = true.
Proof.
  intros H.
  assert (C : d = 0 \/ d = 1 \/ d = 2 \/ d = 3 \/ d = 4 \/
              d = 5 \/ d = 6 \/ d = 7 \/ d = 8 \/ d = 9) by lia.
  repeat (destruct C as [C|C]; [subst d; reflexivity|]). subst d. reflexivity.
Qed.

Lemma digitsFrom_decimal (fuel : nat) :
  forall n acc,
    0 <= n -> allDigits acc = true ->
    allDigits (JS.digitsFrom fuel 10 n acc) = true /\
    (fuel <> 0%nat -> JS.digitsFrom fuel 10 n acc <> "").
Proof.
  induction fuel as [|fuel IH]; intros n acc Hn Ha; cbn [JS.digitsFrom].
  - split; [exact Ha | intros H; now contradiction H].
  - cbv zeta.
    assert (Hd : JS.isDigit (JS.digitChar (n mod 10)) = true)
      by (apply digitChar_isDigit; apply Z.mod_pos_bound; lia).
    assert (Ha' : allDigits (String (JS.digitChar (n mod 10)) acc) = true)
      by (cbn [allDigits]; now rewrite Hd, Ha).
    destruct (n / 10 =? 0).
    + split; [exact Ha' | intros _; discriminate].
    + assert (Hq : 0 <= n / 10) by (apply Z.div_pos; lia).
      destruct (IH (n / 10) _ Hq Ha') as [H1 H2]. split; [exact H1|].
      intros _. destruct fuel as [|fuel']; [cbn [JS.digitsFrom]; discriminate|].
      apply H2. discriminate.
Qed.

Lemma numberToString_decimal (n : Z) :
  0 <= n ->
  allDigits (JS.numberToString n) = true /\ JS.numberToString n <> "".
Proof.
  intros Hn. unfold JS.numberToString, JS.toStringRadix. cbv zeta.
  assert (E : (n <? 0) = false) by (apply Z.ltb_ge; exact Hn). rewrite E.
  rewrite Z.abs_eq by exact Hn.
  destruct (digitsFrom_decimal (S (Z.to_nat (Z.log2 n))) n "" Hn eq_refl) as [H1 H2].
  split; [exact H1 | apply H2; discriminate].
Qed.

Lemma prefix_app (p s : string) : String.prefix p (p ++ s) = true.
Proof.
  induction p as [|c p IH]; cbn [append String.prefix]; [now destruct s|].
  destruct (ascii_dec c c) as [_|N]; [exact IH | now contradiction N].
Qed.

Lemma includes_app (p a b : string) : JS.includes p (a ++ p ++ b) = true.
Proof.
  induction a as [|c a IH]; cbn [append].
  - destruct (p ++ b) as [|d r] eqn:E; cbn [JS.includes];
      rewrite <- E, prefix_app; reflexivity.
  - cbn [JS.includes]. rewrite IH. apply orb_true_r.
Qed.

Lemma versioned_key_matches (wid : string) (n : Z) :
  0 <= n -> Store.isVersionedCopy (wid ++ "-v" ++ JS.numberToString n) = true.
Proof.
  intros Hn. unfold Store.isVersionedCopy. rewrite includes_app. cbn [andb].
  unfold JS.matchesVersionSuffix.
  destruct (numberToString_decimal n Hn) as [Hd Hne].
  rewrite rev_app, rev_app.
  change (JS.rev "-v" "") with "v-".
  rewrite <- allDigits_rev in Hd.
  assert (Hne' : JS.rev (JS.numberToString n) "" <> "").
  { intros E. apply Hne.
    destruct (JS.numberToString n) as [|c s]; [reflexivity|].
    cbn [JS.rev] in E. rewrite rev_acc in E.
    destruct (JS.rev s ""); discriminate. }
  destruct (JS.rev (JS.numberToString n) "") as [|c r]; [now contradiction Hne'|].
  cbn [allDigits] in Hd. apply andb_true_iff in Hd. destruct Hd as [Hc Hr].
  rewrite append_assoc. cbn [append]. rewrite Hc. cbn [andb].
  change (String "v" (String "-" (JS.rev wid "")))
    with ("v-" ++ JS.rev wid "").
  rewrite (dropDigits_app r _ Hr).
  reflexivity.
Qed.

(** X8. The versioned copies a re-validation writes never come back into
    the store: whatever value the relay delivers under a key made of an id,
    "-v" and a count that is not negative, the listener leaves the store as
    it is, returning before it looks at the value's fields. *)
Theorem versioned_copy_is_never_loaded :
  forall random now data witnessId count current,
    0 <= count ->
    fst (Store.loadWitnessData random now data
           (witnessId ++ "-v" ++ JS.numberToString count) current) = current /\
    In (snd (Store.loadWitnessData random now data
               (witnessId ++ "-v" ++ JS.numberToString count) current))
       [Store.NoData; Store.SystemKey; Store.VersionedCopy].
Proof.
  intros random now data witnessId count current Hc.
  unfold Store.loadWitnessData, Store.beforeUpdate.
  rewrite (versioned_key_matches witnessId count Hc).
  destruct data as [ | parsed | d | ];
    [cbn; auto | | | ];
    destruct (Store.isSystemKey (witnessId ++ "-v" ++ JS.numberToString count));
    cbn; auto.
Qed.

Lemma versioned_copy_is_never_loaded_witness :
  fst (Store.loadWitnessData Sample.random 1000
         (GObject (Sample.record "a1" 10 330100 3 100 (Some 100)))
         ("a1" ++ "-v" ++ JS.numberToString 3)
         [Sample.witness "a1" 10 330100 2 100 None])
  = [Sample.witness "a1" 10 330100 2 100 None].
Proof.
  destruct (versioned_copy_is_never_loaded Sample.random 1000
              (GObject (Sample.record "a1" 10 330100 3 100 (Some 100)))
              "a1" 3 [Sample.witness "a1" 10 330100 2 100 None]) as [H _].
  - lia.
  - exact H.
Defined.

(** ** The relay listener and the store's invariants *)

Lemma findById_not_in (wid : string) (current : list Witness) :
  findById wid current = None -> ~ In wid (map id current).
Proof.
  unfold findById. intros H Hin. apply in_map_iff in Hin.
  destruct Hin as [w [E Hw]].
  apply (find_none _ _ H) in Hw. apply String.eqb_neq in Hw. contradiction.
Qed.

Lemma replaced_ids (nw : Witness) (current : list Witness) :
  map id (map (fun w => if String.eqb (id w) (id nw) then nw else w) current)
  = map id current.
Proof.
  rewrite map_map. apply map_ext. intros w.
  destruct (String.eqb (id w) (id nw)) eqn:E; [|reflexivity].
  apply String.eqb_eq in E. now symmetry.
Qed.

Lemma NoDup_ids_app (current : list Witness) (w : Witness) :
  NoDup (map id current) -> ~ In (id w) (map id current) ->
  NoDup (map id (current ++ [w])).
Proof.
  intros Hn Hnot. rewrite map_app. cbn [map].
  apply NoDup_app.
  - exact Hn.
  - constructor; [intros [] | constructor].
  - intros a Ha [Hb | []]. subst a. contradiction.
Qed.

Lemma mergeLoaded_ids (lu : option Z) (w : Witness) (current : list Witness) :
  (findById (id w) current = None /\
   fst (Store.mergeLoaded lu w current) = (current ++ [w])%list) \/
  (findById (id w) current <> None /\
   map id (fst (Store.mergeLoaded lu w current)) = map id current).
Proof.
  unfold Store.mergeLoaded.
  destruct (findById (id w) current) as [existing|] eqn:F.
  - right. split; [discriminate|].
    destruct (Store.changed existing w lu); cbn [fst]; [|reflexivity].
    change (fun v => if String.eqb (id v) (id w) then Store.overwriting existing w lu else v)
      with (fun v => if String.eqb (id v) (id (Store.overwriting existing w lu))
                     then Store.overwriting existing w lu else v).
    apply replaced_ids.
  - left. split; reflexivity.
Qed.

(** X9. A value from the relay never removes, reorders or duplicates an id:
    after loadWitnessData the ids in the store are those before, with the
    incoming id appended at the end when it was not stored; ids that were
    unique stay unique. *)
Theorem loadWitnessData_keeps_ids :
  forall random now data key current,
    (map id (fst (Store.loadWitnessData random now data key current)) = map id current \/
     exists w, ~ In (id w) (map id current) /\
               fst (Store.loadWitnessData random now data key current)
               = (current ++ [w])%list) /\
    (NoDup (map id current) ->
     NoDup (map id (fst (Store.loadWitnessData random now data key current)))).
Proof.
  intros random now data key current. unfold Store.loadWitnessData.
  destruct (Store.beforeUpdate random now data key) as [out | [w lu]].
  - split; [now left | intros H; exact H].
  - destruct (mergeLoaded_ids lu w current) as [[F E] | [F E]].
    + split.
      * right. exists w. split; [now apply findById_not_in | exact E].
      * intros Hn. rewrite E. apply NoDup_ids_app; [exact Hn | now apply findById_not_in].
    + split; [now left | intros Hn; now rewrite E].
Qed.

Lemma loadWitnessData_keeps_ids_witness :
  NoDup (map id (fst (Store.loadWitnessData Sample.random 1000
                        (GObject (Sample.record "b2" 10 330100 2 100 (Some 100))) "b2"
                        [Sample.witness "a1" 10 330100 2 100 None]))).
Proof.
  destruct (loadWitnessData_keeps_ids Sample.random 1000
              (GObject (Sample.record "b2" 10 330100 2 100 (Some 100))) "b2"
              [Sample.witness "a1" 10 330100 2 100 None]) as [_ H].
  apply H. cbn. constructor; [intros [] | constructor].
Defined.

Lemma effective_count_at_least_one (now : Z) (w : Witness) :
  1 <= Store.calculateCurrentWitnessCount now w.
Proof.
  unfold Store.calculateCurrentWitnessCount, Store.DEV_MODE. lia.
Qed.







(** X11. A position known locally survives every update from the relay:
    when the stored witness of the incoming id has a position, the witness
    stored under that id afterwards has that same position, whether the
    record was written over it or not. *)
Theorem local_position_survives_updates :
  forall random now data key current w lu existing placed,
    Store.beforeUpdate random now data key = inr (w, lu) ->
    findById (id w) current = Some existing ->
    position (metadata existing) = Some placed ->
    exists w',
      findById (id w) (fst (Store.loadWitnessData random now data key current)) = Some w' /\
      position (metadata w') = Some placed.
Proof.
  intros random now data key current w lu existing placed Hb Hf Hp.
  rewrite (loadWitnessData_reaches _ _ _ _ _ _ Hb).
  rewrite (mergeLoaded_known lu w existing current Hf).
  destruct (Store.changed existing w lu); cbn [fst].
  - exists (Store.overwriting existing w lu). split.
    + change (fun v => if String.eqb (id v) (id w) then Store.overwriting existing w lu else v)
        with (fun v => if String.eqb (id v) (id (Store.overwriting existing w lu))
                       then Store.overwriting existing w lu else v).
      change (id w) with (id (Store.overwriting existing w lu)) at 1.
      now apply findById_replace_same with (old := existing).
    + unfold Store.overwriting. cbn [metadata position]. now rewrite Hp.
  - exists existing. split; assumption.
Qed.

Lemma local_position_survives_updates_witness :
  let existing :=
    mkWitness "a1" "hello" 10 330100 2 100 None (Some Sample.helloProof)
              (mkMetadata None None (Some (mkPosition (3 # 1) (4 # 1))) None) in
  exists w',
    findById "a1"
      (fst (Store.loadWitnessData Sample.random 1000
              (GObject (Sample.record "a1" 10 345200 3 200 (Some 200))) "a1" [existing]))
    = Some w' /\
    position (metadata w') = Some (mkPosition (3 # 1) (4 # 1)).
Proof.
  intros existing.
  apply (local_position_survives_updates Sample.random 1000
           (GObject (Sample.record "a1" 10 345200 3 200 (Some 200))) "a1" [existing]
           (Sample.arrived "a1" 10 345200 3 200) (Some 200) existing
           (mkPosition (3 # 1) (4 # 1))).
  - sample_arrives.
  - reflexivity.
  - reflexivity.
Defined.

(** ** addWitness *)

(** X12. Once the clock shows the second elapsed, addWitness returns a
    witness with the given id, the trimmed text, count 1, created and last
    witnessed now, expiring five minutes later and carrying the proof just
    computed for the trimmed text; that witness is appended to the store as
    it is when the proof resolves, put on the relay under its id, sent to
    the peers and, when there is a tab channel, posted to the tabs. *)
Theorem addWitness_appends_the_new_witness :
  forall fuel clock now newId seed placed during content contextOf world k,
    clock (S k) - clock 0%nat >= 1000 ->
    (k < fuel)%nat ->
    exists p w world',
      Store.computeProofOfWork fuel clock (JS.trim content) = Some p /\
      Store.addWitness fuel clock now newId seed placed during content contextOf world
      = Some (w, world') /\
      let mid := during (proofComputed (JS.trim content) p world) in
      id w = newId /\ text w = JS.trim content /\
      witnessCount w = 1 /\ createdAt w = now /\ lastWitnessed w = now /\
      expiresAt w = now + 300000 /\ createdAt w < expiresAt w /\
      proof w = Some p /\
      witnesses world' = (witnesses mid ++ [w])%list /\
      gunPuts world' = (gunPuts mid ++ [(newId, Store.gunDataNew w)])%list /\
      peerSends world' = (peerSends mid ++ [NEW_WITNESS w])%list /\
      tabPosts world' = (if syncChannel mid then (tabPosts mid ++ [NEW_WITNESS w])%list
                         else tabPosts mid).
Proof.
  intros fuel clock now newId seed placed during content contextOf world k Hc Hk.
  destruct (computeLoop_resolves clock (clock 0%nat) (JS.trim content)
              k fuel 0 0%nat Hc Hk) as [p Hp].
  fold (Store.computeProofOfWork fuel clock (JS.trim content)) in Hp.
  exists p. eexists. eexists. split; [exact Hp|].
  unfold Store.addWitness. rewrite Hp. cbv zeta. split; [reflexivity|].
  cbn [id text witnessCount createdAt lastWitnessed expiresAt proof
       witnesses gunPuts peerSends tabPosts].
  unfold Store.getDefaultExpiration, Store.DEV_MODE.
  replace (5 * 60 * 1000) with 300000 by reflexivity.
  repeat split. lia.
Qed.

Lemma addWitness_appends_the_new_witness_witness :
  exists p w world',
    Store.computeProofOfWork 1 Sample.slowClock (JS.trim " hello ") = Some p /\
    Store.addWitness 1 Sample.slowClock 5000 "n1" Sample.random
      (mkPosition (3 # 1) (4 # 1)) (fun w => w) " hello " None
      (mkWorld [] [] true [] [] [])
    = Some (w, world') /\
    id w = "n1" /\ expiresAt w = 5000 + 300000 /\ witnesses world' = [w].
Proof.
  destruct (addWitness_appends_the_new_witness 1 Sample.slowClock 5000 "n1" Sample.random
              (mkPosition (3 # 1) (4 # 1)) (fun w => w) " hello " None
              (mkWorld [] [] true [] [] []) 0)
    as [p [w [world' [Hp [Ha H]]]]].
  - cbv. discriminate.
  - lia.
  - cbv zeta in H. destruct H as (Hid & _ & _ & _ & _ & He & _ & _ & Hw & _).
    exists p, w, world'. repeat split; assumption.
Defined.

Lemma orNull_some_str (s : string) :
  Store.orNullStr (Some s) = None \/ Store.orNullStr (Some s) = Some s.
Proof. unfold Store.orNullStr. destruct (JS.truthyStr (Some s)); auto. Qed.

(** X13. The relay's echo of a witness's own record as addWitness puts it
    changes nothing: for a stored witness with count 1 whose lastWitnessed is
    its createdAt (as addWitness leaves it), the record built from it,
    delivered under its id at any time from its creation on, leaves the store
    exactly as it is -- whether or not its proof verifies. *)
Theorem own_record_echo_changes_nothing :
  forall random now w current,
    witnessCount w = 1 ->
    lastWitnessed w = createdAt w ->
    createdAt w <= now ->
    findById (id w) current = Some w ->
    fst (Store.loadWitnessData random now (GObject (Store.gunDataNew w)) (id w) current)
    = current.
Proof.
  intros random now w current Hc Hl Hn Hf.
  unfold Store.loadWitnessData.
  destruct (Store.beforeUpdate random now (GObject (Store.gunDataNew w)) (id w))
    as [out | [w' lu]] eqn:B; [reflexivity|].
  apply beforeUpdate_inr in B.
  destruct B as [built [Ew [Hact [_ [_ [_ [[raw [E _]] | [d [did [dtext [dc [de H]]]]]]]]]]]];
    [discriminate|].
  destruct H as [Ed [Eid [Et [Ecr [Eex [Eb Elu]]]]]].
  injection Ed as Ed. subst d.
  cbn [Store.gunDataNew g_id g_text g_createdAt g_expiresAt g_lastUpdate] in *.
  injection Eid as Eid. injection Et as Et. injection Ecr as Ecr. injection Eex as Eex.
  subst did dtext dc de lu.
  assert (Hid : id w' = id w).
  { subst w'. destruct (decayed_fields now built) as [E _]. rewrite E. now subst built. }
  assert (Hex : expiresAt w' = expiresAt w).
  { subst w'. destruct (decayed_fields now built) as [_ [E _]]. rewrite E. now subst built. }
  assert (Hcount : witnessCount w' = 1).
  { subst w'. rewrite decayed_count. subst built.
    unfold Store.calculateCurrentWitnessCount, Store.DEV_MODE, Store.fromObject.
    cbn [lastWitnessed witnessCount Store.gunDataNew g_witnessCount g_lastWitnessed].
    rewrite Hc, Hl. unfold JS.orNum. cbn [Z.eqb].
    assert (Elw : (if createdAt w =? 0 then createdAt w else createdAt w) = createdAt w)
      by (destruct (createdAt w =? 0); reflexivity).
    rewrite Elw.
    replace (2 * 60 * 1000) with 120000 by reflexivity.
    assert (0 <= (now - createdAt w) / 120000) by (apply Z.div_pos; lia).
    lia. }
  unfold Store.mergeLoaded. rewrite Hid, Hf.
  assert (C : Store.changed w w' None = false).
  { unfold Store.changed. rewrite Hcount, Hc, Hex, !Z.eqb_refl. reflexivity. }
  rewrite C. reflexivity.
Qed.

Lemma own_record_echo_changes_nothing_witness :
  let w := mkWitness "n1" "hello" 5000 305000 1 5000 None (Some Sample.helloProof)
                     (mkMetadata (Some Sample.random) None None None) in
  fst (Store.loadWitnessData Sample.random 6000 (GObject (Store.gunDataNew w)) "n1" [w])
  = [w].
Proof.
  intros w.
  apply (own_record_echo_changes_nothing Sample.random 6000 w [w]).
  - reflexivity.
  - reflexivity.
  - cbn. lia.
  - reflexivity.
Defined.

(** ** Tab and peer messages *)

(** X14. On the tab and peer channels a new-witness message for an id that
    is already stored changes nothing (so the same message twice is the same
    as once), an update for an id that is not stored changes nothing, and an
    update for a stored id puts the received record in its place; ids that
    were unique stay unique under both kinds of message. *)
Theorem channel_messages_upsert_by_id :
  forall data current,
    (findById (id data) current <> None ->
     Store.onChannelMessage (NEW_WITNESS data) current = current) /\
    Store.onChannelMessage (NEW_WITNESS data)
      (Store.onChannelMessage (NEW_WITNESS data) current)
    = Store.onChannelMessage (NEW_WITNESS data) current /\
    (findById (id data) current = None ->
     Store.onChannelMessage (UPDATE_WITNESS data) current = current) /\
    (findById (id data) current <> None ->
     findById (id data) (Store.onChannelMessage (UPDATE_WITNESS data) current)
     = Some data) /\
    (NoDup (map id current) ->
     NoDup (map id (Store.onChannelMessage (NEW_WITNESS data) current)) /\
     NoDup (map id (Store.onChannelMessage (UPDATE_WITNESS data) current))).
Proof.
  intros data current. unfold Store.onChannelMessage.
  split; [|split; [|split; [|split]]].
  - intros H. destruct (findById (id data) current); [reflexivity | now contradiction H].
  - destruct (findById (id data) current) as [e|] eqn:F.
    + now rewrite F.
    + rewrite findById_app, F. unfold findById at 1. cbn [find].
      now rewrite String.eqb_refl.
  - intros H. unfold findById in H.
    induction current as [|a l IH]; cbn [map find] in *; [reflexivity|].
    destruct (String.eqb (id a) (id data)); [discriminate|].
    now rewrite IH.
  - intros H. destruct (findById (id data) current) as [e|] eqn:F;
      [|now contradiction H].
    now apply findById_replace_same with (old := e).
  - intros Hn. split.
    + destruct (findById (id data) current) eqn:F; [exact Hn|].
      apply NoDup_ids_app; [exact Hn | now apply findById_not_in].
    + now rewrite replaced_ids.
Qed.

Lemma channel_messages_upsert_by_id_witness :
  Store.onChannelMessage (NEW_WITNESS (Sample.witness "a1" 10 345200 3 200 None))
    [Sample.witness "a1" 10 330100 2 100 None]
  = [Sample.witness "a1" 10 330100 2 100 None] /\
  findById "a1"
    (Store.onChannelMessage (UPDATE_WITNESS (Sample.witness "a1" 10 345200 3 200 None))
       [Sample.witness "a1" 10 330100 2 100 None])
  = Some (Sample.witness "a1" 10 345200 3 200 None).
Proof.
  destruct (channel_messages_upsert_by_id (Sample.witness "a1" 10 345200 3 200 None)
              [Sample.witness "a1" 10 330100 2 100 None]) as [H1 [_ [_ [H4 _]]]].
  split; [apply H1 | apply H4]; discriminate.
Defined.

(** ** The periodic cleanup *)

Lemma NoDup_map_filter {A B : Type} (f : A -> B) (keep : A -> bool) (l : list A) :
  NoDup (map f l) -> NoDup (map f (filter keep l)).
Proof.
  induction l as [|a l IH]; cbn [map filter]; intros H; [constructor|].
  inversion H as [|? ? Hnot Hn]; subst.
  destruct (keep a); cbn [map]; [|now apply IH].
  constructor; [|now apply IH].
  intros Hin. apply Hnot. apply in_map_iff in Hin. destruct Hin as [v [E Hv]].
  apply filter_In in Hv. destruct Hv as [Hv _]. rewrite <- E. now apply in_map.
Qed.

Lemma cleanupTick_filter_map (now : Z) (current : list Witness) :
  Store.cleanupTick now current
  = map (Store.decayed now) (Store.getActiveWitnesses now current).
Proof.
  unfold Store.cleanupTick, Store.getActiveWitnesses.
  induction current as [|a l IH]; cbn [map filter]; [reflexivity|].
  destruct (decayed_fields now a) as [_ [E _]]. rewrite E.
  destruct (expiresAt a >? now); cbn [map]; now rewrite IH.
Qed.

Lemma cleanupTick_active (now : Z) (current : list Witness) :
  Forall (fun v => now < expiresAt v /\ 1 <= witnessCount v)
         (Store.cleanupTick now current).
Proof.
  rewrite cleanupTick_filter_map.
  apply Forall_forall. intros v Hv. apply in_map_iff in Hv.
  destruct Hv as [u [E Hu]]. subst v.
  unfold Store.getActiveWitnesses in Hu. apply filter_In in Hu.
  destruct Hu as [_ Hu]. rewrite Z.gtb_ltb in Hu. apply Z.ltb_lt in Hu.
  destruct (decayed_fields now u) as [_ [E _]].
  rewrite E, decayed_count. split; [exact Hu | apply effective_count_at_least_one].
Qed.

(** X15. After the periodic cleanup every witness in the store is unexpired
    and has a count of at least 1; the ids left are exactly the ids of the
    witnesses that had not expired, in their order, each with its expiry
    unchanged; nothing is added, and ids that were unique stay unique. *)
Theorem cleanupTick_leaves_the_unexpired :
  forall now current,
    Forall (fun v => now < expiresAt v /\ 1 <= witnessCount v)
           (Store.cleanupTick now current) /\
    map (fun v => (id v, expiresAt v)) (Store.cleanupTick now current)
    = map (fun v => (id v, expiresAt v)) (Store.getActiveWitnesses now current) /\
    (List.length (Store.cleanupTick now current) <= List.length current)%nat /\
    (NoDup (map id current) -> NoDup (map id (Store.cleanupTick now current))).
Proof.
  intros now current. split; [apply cleanupTick_active|].
  rewrite cleanupTick_filter_map.
  split; [|split].
  - rewrite map_map. apply map_ext. intros v.
    destruct (decayed_fields now v) as [E1 [E2 _]]. now rewrite E1, E2.
  - rewrite length_map. unfold Store.getActiveWitnesses. apply filter_length_le.
  - intros Hn. rewrite map_map.
    assert (E : map (fun v => id (Store.decayed now v)) (Store.getActiveWitnesses now current)
                = map id (Store.getActiveWitnesses now current)).
    { apply map_ext. intros v. now destruct (decayed_fields now v) as [E _]. }
    rewrite E. unfold Store.getActiveWitnesses. now apply NoDup_map_filter.
Qed.

Lemma cleanupTick_leaves_the_unexpired_witness :
  NoDup (map id (Store.cleanupTick 1000 Sample.trio)).
Proof.
  destruct (cleanupTick_leaves_the_unexpired 1000 Sample.trio) as [_ [_ [_ H]]].
  apply H. cbn.
  repeat (constructor; [cbn; intros H'; repeat (destruct H' as [H'|H']; try discriminate);
                        exact H' |]).
  constructor.
Defined.

(** ** The later revision: proof of work *)

(** X16. In the later revision the round trip holds: once the clock shows
    the second elapsed within the iterations allowed, computeProofOfWork
    returns a proof, and verifyProofOfWork accepts that proof for the same
    text. *)
Theorem later_revision_round_trip :
  forall fuel clock content k,
    clock (S k) - clock 0%nat >= 1000 ->
    (k < fuel)%nat ->
    exists p,
      BoundedStore.computeProofOfWork fuel clock content = Some p /\
      BoundedStore.verifyProofOfWork content p = true.
Proof.
  intros fuel clock content k Hc Hk.
  destruct (bounded_computeLoop_resolves clock (clock 0%nat) content k fuel 0 0%nat Hc Hk)
    as [p Hp].
  exists p. split; [exact Hp|].
  exact (bounded_computeLoop_verifies _ _ _ _ _ _ _ Hp).
Qed.

Lemma later_revision_round_trip_witness :
  exists p,
    BoundedStore.computeProofOfWork 1 Sample.slowClock "hello" = Some p /\
    BoundedStore.verifyProofOfWork "hello" p = true.
Proof.
  apply (later_revision_round_trip 1 Sample.slowClock "hello" 0).
  - cbv. discriminate.
  - lia.
Defined.

(** X17. The later verifyProofOfWork accepts a proof exactly when its hash
    string is the signed or the unsigned hexadecimal writing of the
    accumulator for the text and the proof's nonce; so every proof the
    earlier revision's verification accepts is still accepted. *)
Theorem later_verification_accepts_both_encodings :
  forall content p,
    (BoundedStore.verifyProofOfWork content p = true <->
     hash p = JS.toString16 (Pow.accumulate content (nonce p)) \/
     hash p = JS.toString16 (JS.toUint32 (Pow.accumulate content (nonce p)))) /\
    (Store.verifyProofOfWork content p = true ->
     BoundedStore.verifyProofOfWork content p = true).
Proof.
  intros content p.
  assert (I : BoundedStore.verifyProofOfWork content p = true <->
              hash p = JS.toString16 (Pow.accumulate content (nonce p)) \/
              hash p = JS.toString16 (JS.toUint32 (Pow.accumulate content (nonce p)))).
  { unfold BoundedStore.verifyProofOfWork. cbv zeta.
    set (h := Pow.accumulate content (nonce p)). clearbody h.
    rewrite orb_true_iff, !String.eqb_eq. split; intros [H|H]; auto. }
  split; [exact I|].
  intros H. apply I. left. rewrite verifyProofOfWork_eq in H.
  set (h := Pow.accumulate content (nonce p)) in *. clearbody h.
  apply String.eqb_eq in H. now symmetry.
Qed.

Lemma later_verification_accepts_both_encodings_witness :
  BoundedStore.verifyProofOfWork (JS.trim "hello") Sample.helloProof = true.
Proof.
  destruct (later_verification_accepts_both_encodings (JS.trim "hello") Sample.helloProof)
    as [_ H].
  apply H. exact helloProof_valid.
Defined.

(** ** The later revision: keeping the store within its limit *)

Lemma firstn_subset {A : Type} (n : nat) (l : list A) (a : A) :
  In a (firstn n l) -> In a l.
Proof.
  intros H. rewrite <- (firstn_skipn n l). apply in_or_app. now left.
Qed.

Lemma skipn_subset {A : Type} (n : nat) (l : list A) (a : A) :
  In a (skipn n l) -> In a l.
Proof.
  intros H. rewrite <- (firstn_skipn n l). apply in_or_app. now right.
Qed.

(** X18. Whatever the store holds, after the cleanup callback for a limit it
    holds at most that many witnesses (200 for cleanupTimer), each of them
    unexpired with a count of at least 1, and each of them one that the
    decay and expiry sweep alone would have kept. *)
Theorem cleanup_keeps_the_store_within_the_limit :
  forall limit now current,
    (List.length (BoundedStore.cleanupWith limit now current) <= limit)%nat /\
    (List.length (BoundedStore.cleanupTick now current) <= 200)%nat /\
    Forall (fun v => now < expiresAt v /\ 1 <= witnessCount v)
           (BoundedStore.cleanupWith limit now current) /\
    (forall v, In v (BoundedStore.cleanupWith limit now current) ->
               In v (Store.cleanupTick now current)).
Proof.
  assert (L : forall limit now current,
             (List.length (BoundedStore.cleanupWith limit now current) <= limit)%nat).
  { intros limit now current. unfold BoundedStore.cleanupWith. cbv zeta.
    destruct (Nat.ltb_spec limit
                (List.length (BoundedStore.getActiveWitnesses now
                                (map (Store.decayed now) current)))) as [H|H].
    - rewrite length_firstn. lia.
    - exact H. }
  assert (S : forall limit now current v,
             In v (BoundedStore.cleanupWith limit now current) ->
             In v (Store.cleanupTick now current)).
  { intros limit now current v. unfold BoundedStore.cleanupWith. cbv zeta.
    change (BoundedStore.getActiveWitnesses now (map (Store.decayed now) current))
      with (Store.cleanupTick now current).
    destruct (limit <? List.length (Store.cleanupTick now current))%nat; [|tauto].
    intros H. apply firstn_subset in H.
    apply (Permutation_in _ (sortWith_perm BoundedStore.byTouchedDesc _)) in H.
    exact H. }
  intros limit now current. split; [apply L|]. split; [apply (L 200%nat)|].
  split; [|apply S].
  apply Forall_forall. intros v Hv. apply S in Hv.
  pose proof (cleanupTick_active now current) as F.
  rewrite Forall_forall in F. now apply F.
Qed.

(** X19. checkMemoryUsage touches the store only when the used share of the
    heap is above 80 percent and no warning is pending: it then sets the
    flag and keeps at most 100 witnesses, none of them expiring earlier
    than one it removed.  Without heap figures nothing changes; in every
    other case the store is left as it is and the flag is cleared exactly
    when the share is below 60 percent. *)
Theorem memory_check_halves_the_store_once :
  forall percentUsed flag current,
    (percentUsed = None ->
     BoundedStore.checkMemoryUsage percentUsed flag current = (current, flag)) /\
    (forall pct,
        percentUsed = Some pct -> (80 < pct)%Q -> flag = false ->
        snd (BoundedStore.checkMemoryUsage percentUsed flag current) = true /\
        (List.length (fst (BoundedStore.checkMemoryUsage percentUsed flag current))
         <= 100)%nat /\
        exists removed,
          Permutation
            (fst (BoundedStore.checkMemoryUsage percentUsed flag current) ++ removed)
            current /\
          forall kept gone,
            In kept (fst (BoundedStore.checkMemoryUsage percentUsed flag current)) ->
            In gone removed -> expiresAt gone <= expiresAt kept) /\
    (forall pct,
        percentUsed = Some pct -> (pct <= 80)%Q \/ flag = true ->
        fst (BoundedStore.checkMemoryUsage percentUsed flag current) = current /\
        ((pct < 60)%Q ->
         snd (BoundedStore.checkMemoryUsage percentUsed flag current) = false) /\
        ((60 <= pct)%Q ->
         snd (BoundedStore.checkMemoryUsage percentUsed flag current) = flag)).
Proof.
  intros percentUsed flag current. split; [|split].
  - intros ->. reflexivity.
  - intros pct -> Hp ->. unfold BoundedStore.checkMemoryUsage.
    assert (E : Qle_bool pct 80 = false).
    { destruct (Qle_bool pct 80) eqn:E; [|reflexivity].
      apply Qle_bool_iff in E. exfalso. exact (Qlt_not_le _ _ Hp E). }
    rewrite E. cbn [negb andb fst snd].
    set (byExpiry := fun a b : Witness => expiresAt b - expiresAt a).
    change (Nat.div BoundedStore.MAX_WITNESSES_IN_MEMORY 2) with 100%nat.
    split; [reflexivity|]. split; [rewrite length_firstn; lia|].
    exists (skipn 100 (sortWith byExpiry current)).
    assert (T : forall a b c : Witness,
               byExpiry a b <= 0 -> byExpiry b c <= 0 -> byExpiry a c <= 0)
      by (unfold byExpiry; intros; lia).
    assert (O : forall a b : Witness, byExpiry a b > 0 -> byExpiry b a <= 0)
      by (unfold byExpiry; intros; lia).
    destruct (sortWith_split byExpiry T O 100 current) as [P S].
    split; [exact P|].
    intros kept gone Hk Hg. specialize (S kept gone Hk Hg).
    unfold byExpiry in S. lia.
  - intros pct -> H. unfold BoundedStore.checkMemoryUsage.
    assert (E : negb (Qle_bool pct 80) && negb flag = false).
    { destruct H as [H| ->].
      - apply Qle_bool_iff in H. rewrite H. reflexivity.
      - now rewrite andb_false_r. }
    rewrite E.
    destruct (Qle_bool 60 pct) eqn:E60; cbn [negb fst snd].
    + apply Qle_bool_iff in E60. split; [reflexivity|]. split; [|reflexivity].
      intros Hlt. exfalso. exact (Qlt_not_le _ _ Hlt E60).
    + split; [reflexivity|]. split; [reflexivity|].
      intros Hle. apply Qle_bool_iff in Hle. congruence.
Qed.

Lemma memory_check_halves_the_store_once_witness :
  snd (BoundedStore.checkMemoryUsage (Some (90 # 1)) false Sample.trio) = true /\
  fst (BoundedStore.checkMemoryUsage (Some (50 # 1)) true Sample.trio) = Sample.trio.
Proof.
  destruct (memory_check_halves_the_store_once (Some (90 # 1)) false Sample.trio)
    as [_ [H _]].
  destruct (memory_check_halves_the_store_once (Some (50 # 1)) true Sample.trio)
    as [_ [_ K]].
  split.
  - apply (H (90 # 1)); reflexivity.
  - apply (K (50 # 1)); [reflexivity | left; discriminate].
Defined.

Lemma sliceFrom_keeps_last {A : Type} (n : nat) (l : list A) :
  (1 <= n)%nat ->
  sliceFrom (- Z.of_nat (S n) + 1) l = skipn (List.length l - n) l.
Proof.
  intros Hn. unfold sliceFrom.
  destruct (Z.ltb_spec (- Z.of_nat (S n) + 1) 0) as [_|H]; [|lia].
  f_equal. lia.
Qed.

(** The new-witness branch under a memory limit of at least 2: the new
    witness comes last; at the limit exactly [limit - 1] of the old ones stay,
    none of them expiring earlier than a removed one. *)
Lemma insertWith_keeps_the_latest_expiring :
  forall limit w current,
    (2 <= limit)%nat ->
    (exists kept, BoundedStore.insertWith limit w current = (kept ++ [w])%list /\
       ((List.length current < limit)%nat -> kept = current) /\
       ((limit <= List.length current)%nat ->
        List.length kept = (limit - 1)%nat /\
        exists removed,
          Permutation (kept ++ removed) current /\
          forall stays gone,
            In stays kept -> In gone removed ->
            expiresAt gone <= expiresAt stays)) /\
    ((List.length current <= limit)%nat ->
     (List.length (BoundedStore.insertWith limit w current) <= limit)%nat).
Proof.
  intros limit w current Hl.
  destruct limit as [|n]; [lia|].
  assert (Hn : (1 <= n)%nat) by lia.
  unfold BoundedStore.insertWith. rewrite (sliceFrom_keeps_last n _ Hn).
  rewrite sortWith_length.
  set (sorted := sortWith BoundedStore.byExpiresAsc current).
  set (k := (List.length current - n)%nat).
  assert (T : forall a b c : Witness,
             BoundedStore.byExpiresAsc a b <= 0 ->
             BoundedStore.byExpiresAsc b c <= 0 ->
             BoundedStore.byExpiresAsc a c <= 0)
    by (unfold BoundedStore.byExpiresAsc; intros; lia).
  assert (O : forall a b : Witness,
             BoundedStore.byExpiresAsc a b > 0 ->
             BoundedStore.byExpiresAsc b a <= 0)
    by (unfold BoundedStore.byExpiresAsc; intros; lia).
  destruct (sortWith_split BoundedStore.byExpiresAsc T O k current) as [P Sp].
  fold sorted in P, Sp.
  assert (Lk : (S n <= List.length current)%nat ->
               List.length (skipn k sorted) = n).
  { intros H. rewrite length_skipn. unfold sorted. rewrite sortWith_length.
    unfold k. lia. }
  destruct (Nat.leb_spec (S n) (List.length current)) as [H|H].
  - split.
    + exists (skipn k sorted). split; [reflexivity|]. split; [lia|].
      intros _. split; [rewrite (Lk H); lia|].
      exists (firstn k sorted). split.
      * eapply Permutation_trans; [apply Permutation_app_comm | exact P].
      * intros stays gone Hs Hg. specialize (Sp gone stays Hg Hs).
        unfold BoundedStore.byExpiresAsc in Sp. lia.
    + intros _. rewrite length_app, (Lk H). cbn. lia.
  - split.
    + exists current. split; [reflexivity|]. split; [reflexivity|]. lia.
    + intros _. rewrite length_app. cbn. lia.
Qed.

(** X20. The store update of loadWitnessData under the memory limit of 200:
    a store of at most 200 witnesses has at most 200 afterwards.  A witness
    with a new id becomes the last of the store; below the limit nothing is
    removed; at or above it exactly 199 of the old ones stay, and no witness
    that stays expires earlier than one that was removed. *)
Theorem loader_keeps_the_store_within_the_limit :
  forall lu w current,
    ((List.length current <= 200)%nat ->
     (List.length (fst (BoundedStore.mergeLoaded lu w current)) <= 200)%nat) /\
    (findById (id w) current = None ->
     snd (BoundedStore.mergeLoaded lu w current) = Store.Loaded /\
     exists kept,
       fst (BoundedStore.mergeLoaded lu w current) = (kept ++ [w])%list /\
       ((List.length current < 200)%nat -> kept = current) /\
       ((200 <= List.length current)%nat ->
        List.length kept = 199%nat /\
        exists removed,
          Permutation (kept ++ removed) current /\
          forall stays gone,
            In stays kept -> In gone removed ->
            expiresAt gone <= expiresAt stays)).
Proof.
  intros lu w current.
  assert (L : (2 <= 200)%nat) by lia.
  destruct (insertWith_keeps_the_latest_expiring 200 w current L) as [[kept [E [B A]]] W].
  unfold BoundedStore.mergeLoaded.
  change BoundedStore.MAX_WITNESSES_IN_MEMORY with 200%nat.
  split.
  - intros H. destruct (findById (id w) current) as [existing|]; cbn [fst].
    + destruct (Store.changed existing w lu); cbn [fst]; [|exact H].
      rewrite length_map. exact H.
    + apply W. exact H.
  - intros ->. cbn [fst snd]. split; [reflexivity|].
    exists kept. split; [exact E|]. split; [exact B|].
    intros H. destruct (A H) as [Lk R]. split; [|exact R].
    rewrite Lk. reflexivity.
Qed.

Lemma loader_keeps_the_store_within_the_limit_witness :
  (List.length
     (fst (BoundedStore.mergeLoaded None (Sample.witness "d" 10 500000 1 10 None)
                                    Sample.trio)) <= 200)%nat.
Proof.
  destruct (loader_keeps_the_store_within_the_limit
              None (Sample.witness "d" 10 500000 1 10 None) Sample.trio) as [H _].
  apply H. cbn. lia.
Defined.

Lemma existsb_eqb_In (key : string) (l : list string) :
  existsb (String.eqb key) l = true <-> In key l.
Proof.
  rewrite existsb_exists. split.
  - intros [x [Hx E]]. apply String.eqb_eq in E. now subst x.
  - intros H. exists key. split; [exact H | apply String.eqb_refl].
Qed.

Lemma NoDup_skipn {A : Type} (n : nat) (l : list A) : NoDup l -> NoDup (skipn n l).
Proof.
  revert l. induction n as [|n IH]; intros l H; [exact H|].
  destruct l as [|a l]; [constructor|].
  cbn [skipn]. apply IH. now inversion H.
Qed.

Lemma In_last_skipn {A : Type} (n : nat) (l : list A) (a : A) :
  (n <= List.length l)%nat -> In a (skipn n (l ++ [a])).
Proof.
  intros H. rewrite skipn_app. apply in_or_app. right.
  replace (n - List.length l)%nat with 0%nat by lia. now left.
Qed.

(** X21. loadWitnessDataWithTracking hands a key to loadWitnessData at most
    once while it is tracked: a key already in the set changes neither the
    set nor the store; a new key is handed on and is tracked afterwards, so
    its next delivery is ignored.  A duplicate-free set of at most 400 keys
    stays duplicate-free and within 400 keys. *)
Theorem tracked_keys_are_loaded_once :
  forall load key ids current,
    NoDup ids ->
    (List.length ids <= 400)%nat ->
    (In key ids ->
     BoundedStore.loadWitnessDataWithTracking load key ids current = (ids, current)) /\
    (~ In key ids ->
     snd (BoundedStore.loadWitnessDataWithTracking load key ids current)
     = load current) /\
    In key (fst (BoundedStore.loadWitnessDataWithTracking load key ids current)) /\
    NoDup (fst (BoundedStore.loadWitnessDataWithTracking load key ids current)) /\
    (List.length (fst (BoundedStore.loadWitnessDataWithTracking load key ids current))
     <= 400)%nat /\
    (forall load' later,
        BoundedStore.loadWitnessDataWithTracking load' key
          (fst (BoundedStore.loadWitnessDataWithTracking load key ids current)) later
        = (fst (BoundedStore.loadWitnessDataWithTracking load key ids current), later)).
Proof.
  intros load key ids current Hn Hl.
  assert (K : forall load' tracked later,
             In key tracked ->
             BoundedStore.loadWitnessDataWithTracking load' key tracked later
             = (tracked, later)).
  { intros load' tracked later H.
    unfold BoundedStore.loadWitnessDataWithTracking.
    apply existsb_eqb_In in H. now rewrite H. }
  assert (I : In key (fst (BoundedStore.loadWitnessDataWithTracking load key ids current))).
  { unfold BoundedStore.loadWitnessDataWithTracking.
    destruct (existsb (String.eqb key) ids) eqn:E.
    - cbn [fst]. now apply existsb_eqb_In.
    - cbv zeta. cbn [fst].
      destruct (Nat.ltb_spec (BoundedStore.MAX_WITNESSES_IN_MEMORY * 2)
                             (List.length (ids ++ [key]))) as [H|H].
      + unfold sliceLast, BoundedStore.MAX_WITNESSES_IN_MEMORY.
        rewrite length_app. cbn [List.length]. apply In_last_skipn. lia.
      + apply in_or_app. right. now left. }
  split; [intros H; now apply K|].
  split.
  { intros H. unfold BoundedStore.loadWitnessDataWithTracking.
    destruct (existsb (String.eqb key) ids) eqn:E.
    - apply existsb_eqb_In in E. contradiction.
    - reflexivity. }
  split; [exact I|].
  split; [|split].
  - unfold BoundedStore.loadWitnessDataWithTracking.
    destruct (existsb (String.eqb key) ids) eqn:E; [exact Hn|].
    cbv zeta. cbn [fst].
    assert (N : NoDup (ids ++ [key])).
    { apply NoDup_app; [exact Hn | repeat constructor; intros [] |].
      intros x Hx [Hk|[]]. subst x. apply existsb_eqb_In in Hx. congruence. }
    destruct (BoundedStore.MAX_WITNESSES_IN_MEMORY * 2 <? List.length (ids ++ [key]))%nat;
      [|exact N].
    unfold sliceLast, BoundedStore.MAX_WITNESSES_IN_MEMORY. now apply NoDup_skipn.
  - unfold BoundedStore.loadWitnessDataWithTracking.
    destruct (existsb (String.eqb key) ids) eqn:E; [exact Hl|].
    cbv zeta. cbn [fst].
    destruct (Nat.ltb_spec (BoundedStore.MAX_WITNESSES_IN_MEMORY * 2)
                           (List.length (ids ++ [key]))) as [H|H].
    + unfold sliceLast, BoundedStore.MAX_WITNESSES_IN_MEMORY.
      rewrite length_skipn, length_app. cbn [List.length]. lia.
    + change (BoundedStore.MAX_WITNESSES_IN_MEMORY * 2)%nat with 400%nat in H. exact H.
  - intros load' later. now apply K.
Qed.

Lemma tracked_keys_are_loaded_once_witness :
  BoundedStore.loadWitnessDataWithTracking (fun current => current) "a1" ["a1"; "b2"]
    Sample.trio
  = (["a1"; "b2"], Sample.trio).
Proof.
  destruct (tracked_keys_are_loaded_once (fun current => current) "a1" ["a1"; "b2"]
              Sample.trio) as [H _].
  - repeat constructor; cbn; intros H; repeat (destruct H as [H|H]; try discriminate);
      exact H.
  - cbn. lia.
  - apply H. now left.
Defined.

(** ** The emergency store *)

Lemma filter_split_perm {A : Type} (p q : A -> bool) (l : list A) :
  (forall a, q a = negb (p a)) ->
  Permutation (filter p l ++ filter q l) l.
Proof.
  intros H. induction l as [|a l IH]; cbn [filter]; [constructor|].
  rewrite H. destruct (p a); cbn [negb app].
  - now constructor.
  - eapply Permutation_trans; [apply Permutation_sym, Permutation_middle|].
    now constructor.
Qed.

Lemma Permutation_rotate {A : Type} (s e f : list A) :
  Permutation (s ++ (e ++ f)) ((f ++ s) ++ e).
Proof.
  apply Permutation_trans with (s ++ (f ++ e))%list.
  - apply Permutation_app_head, Permutation_app_comm.
  - rewrite app_assoc. apply Permutation_app_tail, Permutation_app_comm.
Qed.

(** X22. The emergency cleanup accounts for every witness: the ids it keeps
    together with the ids whose relay node it sets to null are the ids of
    the store before, each as often as before; every witness it keeps was
    in the store and is unexpired, and for a limit above 0 (it is 50) at
    most that many are kept. *)
Theorem emergency_cleanup_keeps_or_tombstones :
  forall limit now current,
    (0 < limit)%nat ->
    Permutation
      (map id (fst (Emergency.emergencyCleanupWith limit now current)) ++
       snd (Emergency.emergencyCleanupWith limit now current))
      (map id current) /\
    (forall v, In v (fst (Emergency.emergencyCleanupWith limit now current)) ->
               In v current /\ now < expiresAt v) /\
    (List.length (fst (Emergency.emergencyCleanupWith limit now current)) <= limit)%nat.
Proof.
  intros limit now current Hl.
  unfold Emergency.emergencyCleanupWith. cbv zeta.
  set (expired := filter (fun w => expiresAt w <=? now) current).
  set (active := filter (fun w => expiresAt w >? now) current).
  assert (P : Permutation (active ++ expired) current).
  { apply filter_split_perm. intros a. now rewrite Z.gtb_ltb, Z.leb_antisym. }
  assert (A : forall v, In v active -> In v current /\ now < expiresAt v).
  { intros v Hv. apply filter_In in Hv. destruct Hv as [Hv Hx].
    split; [exact Hv|]. rewrite Z.gtb_ltb in Hx. now apply Z.ltb_lt. }
  destruct (Nat.ltb_spec limit (List.length active)) as [H|H]; cbn [fst snd].
  - unfold sliceLast. destruct limit as [|n]; [lia|].
    rewrite sortWith_length.
    set (k := (List.length active - Datatypes.S n)%nat).
    set (sorted := sortWith Emergency.byCreatedAsc active).
    assert (Q : Permutation (firstn k sorted ++ skipn k sorted) active).
    { rewrite firstn_skipn. apply sortWith_perm. }
    split; [|split].
    + apply Permutation_trans with (map id (active ++ expired));
        [|now apply Permutation_map].
      rewrite map_app.
      apply Permutation_trans
        with (map id (firstn k sorted ++ skipn k sorted) ++ map id expired)%list;
        [|now apply Permutation_app_tail, Permutation_map].
      rewrite map_app. apply Permutation_rotate.
    + intros v Hv. apply A. apply skipn_subset in Hv.
      exact (Permutation_in _ (sortWith_perm _ _) Hv).
    + rewrite length_skipn. unfold sorted. rewrite sortWith_length. unfold k. lia.
  - split; [|split].
    + rewrite <- map_app. now apply Permutation_map.
    + exact A.
    + exact H.
Qed.

Lemma emergency_cleanup_keeps_or_tombstones_witness :
  (List.length (fst (Emergency.emergencyCleanupWith 2 1000 Sample.trio)) <= 2)%nat.
Proof.
  destruct (emergency_cleanup_keeps_or_tombstones 2 1000 Sample.trio) as [_ [_ H]];
    [lia | exact H].
Defined.

(** X23. The emergency reWitness keeps the ids of the store in their order
    and leaves every witness with another id as it is; a witness with the
    given id gets the count raised by 1 but never above 10, the expiry two
    minutes after the call and the call's time as lastWitnessed, and keeps
    its text, creation time and proof; each relay write goes to the given
    id and carries an expiry two minutes after the call.  For an id the
    store does not hold, the store is unchanged and nothing is written. *)
Theorem emergency_reWitness_caps_the_count :
  forall now wid current,
    map id (fst (Emergency.reWitness now wid current)) = map id current /\
    (forall v, In v current -> id v <> wid ->
               In v (fst (Emergency.reWitness now wid current))) /\
    (forall v, In v (fst (Emergency.reWitness now wid current)) ->
               In v current \/
               exists old,
                 In old current /\ id old = wid /\ id v = wid /\
                 witnessCount v = Z.min (witnessCount old + 1) 10 /\
                 expiresAt v = now + 120000 /\ lastWitnessed v = now /\
                 text v = text old /\ createdAt v = createdAt old /\
                 proof v = proof old) /\
    (forall k d, In (k, d) (snd (Emergency.reWitness now wid current)) ->
                 k = wid /\ g_id d = Some wid /\
                 g_expiresAt d = Some (now + 120000) /\
                 exists c, g_witnessCount d = Some c /\ c <= 10) /\
    (findById wid current = None ->
     Emergency.reWitness now wid current = (current, [])).
Proof.
  intros now wid current. unfold Emergency.reWitness. cbn [fst snd].
  split; [|split; [|split; [|split]]].
  - rewrite map_map. apply map_ext. intros w.
    destruct (String.eqb (id w) wid); reflexivity.
  - intros v Hv Hne. apply in_map_iff. exists v. split; [|exact Hv].
    destruct (String.eqb_spec (id v) wid) as [E|_]; [contradiction | reflexivity].
  - intros v Hv. apply in_map_iff in Hv. destruct Hv as [old [E Ho]].
    destruct (String.eqb_spec (id old) wid) as [Ei|_].
    + right. exists old. subst v. cbn.
      repeat split; try assumption; reflexivity.
    + left. now subst v.
  - intros k d H. apply in_map_iff in H. destruct H as [old [E Ho]].
    apply filter_In in Ho. destruct Ho as [_ Ei]. apply String.eqb_eq in Ei.
    inversion E; subst k d. cbn.
    split; [reflexivity|]. split; [now rewrite Ei|]. split; [reflexivity|].
    eexists. split; [reflexivity|].
    unfold Emergency.maxWitnessCount. lia.
  - intros H.
    assert (N : forall v, In v current -> String.eqb (id v) wid = false).
    { intros v Hv. destruct (String.eqb (id v) wid) eqn:E; [|reflexivity].
      exfalso. unfold findById in H.
      apply (find_none _ _ H) in Hv. cbv beta in Hv. congruence. }
    f_equal.
    + rewrite <- (map_id current) at 2. apply map_ext_in. intros v Hv.
      now rewrite (N v Hv).
    + assert (F : filter (fun w => String.eqb (id w) wid) current = []).
      { clear H. induction current as [|a l IH]; [reflexivity|].
        cbn [filter]. rewrite (N a (or_introl eq_refl)).
        apply IH. intros v Hv. apply N. now right. }
      now rewrite F.
Qed.

Lemma emergency_reWitness_caps_the_count_witness :
  Emergency.reWitness 1000 "z" Sample.trio = (Sample.trio, []).
Proof.
  destruct (emergency_reWitness_caps_the_count 1000 "z" Sample.trio)
    as [_ [_ [_ [_ H]]]].
  apply H. reflexivity.
Defined.

(** X24. The relay listener of the emergency store either leaves the store
    as it is or appends one witness.  It appends only below the limit and
    only for an id the store does not hold, and the appended witness is
    unexpired, has a count of at most 10 and carries the record's id and
    text; so a store within the limit stays within it.  A node is set to
    null only when the store is left as it is, and then it is the record's
    own key and the record carried an expiry that had passed. *)
Theorem emergency_listener_appends_below_the_limit :
  forall limit random placed now data key current,
    (fst (Emergency.onDataWith limit random placed now data key current) = current \/
     exists w d,
       fst (Emergency.onDataWith limit random placed now data key current)
       = (current ++ [w])%list /\
       data = GObject d /\ g_id d = Some (id w) /\ g_text d = Some (text w) /\
       findById (id w) current = None /\
       (List.length current < limit)%nat /\
       now < expiresAt w /\ witnessCount w <= 10) /\
    ((List.length current <= limit)%nat ->
     (List.length (fst (Emergency.onDataWith limit random placed now data key current))
      <= limit)%nat) /\
    (snd (Emergency.onDataWith limit random placed now data key current) = [] \/
     snd (Emergency.onDataWith limit random placed now data key current) = [key] /\
     fst (Emergency.onDataWith limit random placed now data key current) = current /\
     exists e, incomingExpiresAt data = Some e /\ e <= now).
Proof.
  intros limit random placed now data key current.
  unfold Emergency.onDataWith.
  destruct data as [|raw|d|]; cbn [fst snd];
    try (split; [now left | split; [tauto | now left]]).
  destruct (g_id d) as [did|] eqn:Eid; cbn [fst snd];
    try (split; [now left | split; [tauto | now left]]).
  destruct (g_text d) as [dtext|] eqn:Etext; cbn [fst snd];
    try (split; [now left | split; [tauto | now left]]).
  destruct (JS.truthyStr (Some did) && JS.truthyStr (Some dtext)); cbn [fst snd];
    try (split; [now left | split; [tauto | now left]]).
  destruct (g_expiresAt d) as [e|] eqn:Ee.
  - destruct (JS.truthyNum (Some e)) eqn:Et; cbn [andb].
    + destruct (Z.leb_spec e now) as [Hle|Hgt]; cbn [fst snd].
      * split; [now left|]. split; [tauto|]. right.
        split; [reflexivity|]. split; [reflexivity|].
        exists e. cbn [incomingExpiresAt]. now split.
      * destruct (findById did current) eqn:F; cbn [fst snd];
          try (split; [now left | split; [tauto | now left]]).
        destruct (Nat.leb_spec limit (List.length current)) as [H|H]; cbn [fst snd];
          try (split; [now left | split; [tauto | now left]]).
        split; [|split; [|now left]].
        -- right. eexists. exists d. split; [reflexivity|]. cbn.
           repeat split; try assumption.
           ++ rewrite Ee. unfold JS.orNum, JS.truthyNum in *.
              destruct (e =? 0); cbn in Et; try discriminate;
                unfold Emergency.getDefaultExpiration, Emergency.expirationTime; lia.
           ++ unfold Emergency.maxWitnessCount. lia.
        -- intros _. rewrite length_app. cbn. lia.
    + destruct (findById did current) eqn:F; cbn [fst snd];
        try (split; [now left | split; [tauto | now left]]).
      destruct (Nat.leb_spec limit (List.length current)) as [H|H]; cbn [fst snd];
        try (split; [now left | split; [tauto | now left]]).
      split; [|split; [|now left]].
      * right. eexists. exists d. split; [reflexivity|]. cbn.
        repeat split; try assumption.
        -- rewrite Ee. unfold JS.orNum, JS.truthyNum in *.
           destruct (e =? 0); cbn in Et; try discriminate;
             unfold Emergency.getDefaultExpiration, Emergency.expirationTime; lia.
        -- unfold Emergency.maxWitnessCount. lia.
      * intros _. rewrite length_app. cbn. lia.
  - cbn [JS.truthyNum andb].
    destruct (findById did current) eqn:F; cbn [fst snd];
      try (split; [now left | split; [tauto | now left]]).
    destruct (Nat.leb_spec limit (List.length current)) as [H|H]; cbn [fst snd];
      try (split; [now left | split; [tauto | now left]]).
    split; [|split; [|now left]].
    + right. eexists. exists d. split; [reflexivity|]. cbn.
      repeat split; try assumption.
      * rewrite Ee. unfold JS.orNum. cbn.
        unfold Emergency.getDefaultExpiration, Emergency.expirationTime. lia.
      * unfold Emergency.maxWitnessCount. lia.
    + intros _. rewrite length_app. cbn. lia.
Qed.

Lemma emergency_listener_appends_below_the_limit_witness :
  (List.length
     (fst (Emergency.onDataWith 50 Sample.random (mkPosition 0 0) 1000
             (GObject (Sample.record "d" 10 500000 1 10 None)) "d" Sample.trio))
   <= 50)%nat.
Proof.
  destruct (emergency_listener_appends_below_the_limit
              50 Sample.random (mkPosition 0 0) 1000
              (GObject (Sample.record "d" 10 500000 1 10 None)) "d" Sample.trio)
    as [_ [H _]].
  apply H. cbn. lia.
Defined.

(** ** The scan that removes expired records from the relay *)

(** X25. cleanupExpiredWitnesses sets a node to null only for an object
    record under a key that is not a system key, with id, text, creation
    time and expiry all set, whose expiry lies more than one hour before
    the time of the scan; so no record that is still unexpired is removed.
    When it removes the record it writes 51 nulls: the key itself first,
    then 50 keys that loadWitnessData skips as versioned copies.  Every such
    record whose expiry is more than an hour past is removed. *)
Theorem relay_scan_removes_only_long_expired :
  forall now data key,
    (BoundedStore.cleanupExpiredWitnesses now data key <> [] ->
     exists d e,
       data = GObject d /\ g_expiresAt d = Some e /\
       e + 3600000 < now /\ e <> 0 /\
       BoundedStore.isSystemKey key = false /\
       JS.truthyStr (g_id d) = true /\ JS.truthyStr (g_text d) = true /\
       JS.truthyNum (g_createdAt d) = true /\
       List.length (BoundedStore.cleanupExpiredWitnesses now data key) = 51%nat /\
       exists copies,
         BoundedStore.cleanupExpiredWitnesses now data key = key :: copies /\
         Forall (fun k => BoundedStore.isVersionedCopy k = true) copies) /\
    (forall d e,
        data = GObject d -> g_expiresAt d = Some e -> e <> 0 ->
        BoundedStore.isSystemKey key = false ->
        JS.truthyStr (g_id d) = true -> JS.truthyStr (g_text d) = true ->
        JS.truthyNum (g_createdAt d) = true ->
        e + 3600000 < now ->
        In key (BoundedStore.cleanupExpiredWitnesses now data key)).
Proof.
  intros now data key. split.
  - unfold BoundedStore.cleanupExpiredWitnesses.
    destruct data as [|raw|d|]; try (intros H; now contradiction H).
    destruct (BoundedStore.isSystemKey key) eqn:Ek; [intros H; now contradiction H|].
    destruct (g_expiresAt d) as [e|] eqn:Ee; [|intros H; now contradiction H].
    destruct (JS.truthyNum (Some e)) eqn:Et; cbn [andb];
      [|intros H; now contradiction H].
    destruct (JS.truthyStr (g_id d)) eqn:Ei; cbn [andb];
      [|intros H; now contradiction H].
    destruct (JS.truthyStr (g_text d)) eqn:Ex; cbn [andb];
      [|intros H; now contradiction H].
    destruct (JS.truthyNum (g_createdAt d)) eqn:Ec; [|intros H; now contradiction H].
    destruct (now >? e + BoundedStore.gracePeriod) eqn:Eg;
      [|intros H; now contradiction H].
    intros _. exists d, e.
    rewrite Z.gtb_ltb in Eg. apply Z.ltb_lt in Eg.
    unfold BoundedStore.gracePeriod in Eg.
    assert (El : List.length (key :: BoundedStore.versionKeys key) = 51%nat).
    { cbn [List.length]. unfold BoundedStore.versionKeys.
      now rewrite length_map, length_seq. }
    repeat split; try assumption; try lia.
    + cbn in Et. intros ->. discriminate.
    + exists (BoundedStore.versionKeys key). split; [reflexivity|].
      apply Forall_forall. intros k Hk. unfold BoundedStore.versionKeys in Hk.
      apply in_map_iff in Hk. destruct Hk as [v [E _]]. subst k.
      apply versioned_key_matches. lia.
  - intros d e -> Ee Hne Ek Ei Ex Ec Hlt.
    unfold BoundedStore.cleanupExpiredWitnesses.
    rewrite Ek, Ee, Ei, Ex, Ec.
    assert (Et : JS.truthyNum (Some e) = true).
    { cbn. destruct (Z.eqb_spec e 0); [contradiction | reflexivity]. }
    rewrite Et. cbn [andb].
    assert (Eg : (now >? e + BoundedStore.gracePeriod) = true).
    { rewrite Z.gtb_ltb. apply Z.ltb_lt. unfold BoundedStore.gracePeriod. lia. }
    rewrite Eg. now left.
Qed.

Lemma relay_scan_removes_only_long_expired_witness :
  In "d" (BoundedStore.cleanupExpiredWitnesses 5000000
            (GObject (Sample.record "d" 10 500000 1 10 None)) "d").
Proof.
  destruct (relay_scan_removes_only_long_expired 5000000
              (GObject (Sample.record "d" 10 500000 1 10 None)) "d") as [_ H].
  apply (H (Sample.record "d" 10 500000 1 10 None) 500000);
    try reflexivity; try discriminate.
Defined.

(** ** Adding a witness to the emergency store *)

Lemma byCreatedAsc_trans (a b c : Witness) :
  Emergency.byCreatedAsc a b <= 0 -> Emergency.byCreatedAsc b c <= 0 ->
  Emergency.byCreatedAsc a c <= 0.
Proof. unfold Emergency.byCreatedAsc. lia. Qed.

Lemma byCreatedAsc_total (a b : Witness) :
  Emergency.byCreatedAsc a b > 0 -> Emergency.byCreatedAsc b a <= 0.
Proof. unfold Emergency.byCreatedAsc. lia. Qed.

Lemma filter_head_out {A : Type} (keep : A -> bool) (a : A) (l : list A) :
  keep a = false -> (List.length (filter keep (a :: l)) <= List.length l)%nat.
Proof.
  intros H. cbn [filter]. rewrite H. apply filter_length_le.
Qed.

(** The eviction step: below the limit nothing happens; at the limit, in a
    store that is not empty, one id is removed, that of a witness created
    no later than any other, and all witnesses with that id go. *)
Lemma evictOldestWith_removes_an_oldest (limit : nat) (current : list Witness) :
  ((List.length current < limit)%nat ->
   Emergency.evictOldestWith limit current = (current, [])) /\
  ((limit <= List.length current)%nat -> current <> [] ->
   exists oldest,
     In oldest current /\
     snd (Emergency.evictOldestWith limit current) = [id oldest] /\
     (forall v, In v current -> createdAt oldest <= createdAt v) /\
     (forall v, In v (fst (Emergency.evictOldestWith limit current)) <->
                In v current /\ id v <> id oldest) /\
     (List.length (fst (Emergency.evictOldestWith limit current))
      < List.length current)%nat).
Proof.
  unfold Emergency.evictOldestWith. cbv zeta. split.
  - intros H. apply Nat.leb_gt in H. now rewrite H.
  - intros H Hne. apply Nat.leb_le in H. rewrite H.
    pose proof (sortWith_perm Emergency.byCreatedAsc current) as P.
    pose proof (sortWith_sorted Emergency.byCreatedAsc byCreatedAsc_trans
                  byCreatedAsc_total current) as St.
    destruct (sortWith Emergency.byCreatedAsc current) as [|oldest rest] eqn:E.
    { apply Permutation_nil in P. contradiction. }
    cbn [fst snd]. exists oldest.
    assert (Io : In oldest current)
      by (apply (Permutation_in _ P); now left).
    split; [exact Io|]. split; [reflexivity|]. split; [|split].
    + intros v Hv. apply (Permutation_in _ (Permutation_sym P)) in Hv.
      destruct Hv as [<-|Hv]; [lia|].
      inversion St as [|? ? _ Hall]; subst.
      rewrite Forall_forall in Hall. specialize (Hall v Hv).
      unfold Emergency.byCreatedAsc in Hall. lia.
    + intros v. rewrite filter_In. split.
      * intros [Hv Hk]. split; [exact (Permutation_in _ P Hv)|].
        intros Ei. rewrite Ei, String.eqb_refl in Hk. discriminate.
      * intros [Hv Hk]. split; [exact (Permutation_in _ (Permutation_sym P) Hv)|].
        destruct (String.eqb_spec (id v) (id oldest)); [contradiction | reflexivity].
    + rewrite <- (Permutation_length P). cbn [List.length].
      apply Nat.lt_succ_r. apply filter_head_out.
      now rewrite String.eqb_refl.
Qed.

(** X26. addWitness of the emergency store, for a limit of at least 1 (it is
    50) and a store within the limit to which other handlers add nothing
    during the await: the store stays within the limit.  Below the limit no
    node is set to null.  When the proof is computed the returned witness is
    the last of the store, with count 1, the trimmed text and an expiry two
    minutes after the call, and exactly one record is written, under its id.
    When the proof computation fails nothing is written and no witness is
    added, but the eviction has already taken place. *)
Theorem emergency_addWitness_stays_within_the_limit :
  forall limit proofResult now newId seed placed during content contextOf current,
    (1 <= limit)%nat ->
    (List.length current <= limit)%nat ->
    (forall c, (List.length (during c) <= List.length c)%nat) ->
    let result :=
      Emergency.addWitnessWith limit proofResult now newId seed placed during
                               content contextOf current in
    let '(returned, store, removed, puts) := result in
    (List.length store <= limit)%nat /\
    ((List.length current < limit)%nat -> removed = []) /\
    removed = snd (Emergency.evictOldestWith limit current) /\
    (forall p,
        proofResult = Some p ->
        exists w,
          returned = Some w /\
          store = (during (fst (Emergency.evictOldestWith limit current)) ++ [w])%list /\
          id w = newId /\ text w = JS.trim content /\ witnessCount w = 1 /\
          createdAt w = now /\ expiresAt w = now + 120000 /\ proof w = Some p /\
          puts = [(newId, Emergency.essentials w)]) /\
    (proofResult = None ->
     returned = None /\ puts = [] /\
     store = during (fst (Emergency.evictOldestWith limit current))).
Proof.
  intros limit proofResult now newId seed placed during content contextOf current
         Hl Hc Hd.
  unfold Emergency.addWitnessWith.
  destruct (evictOldestWith_removes_an_oldest limit current) as [Below At].
  assert (L : (List.length (during (fst (Emergency.evictOldestWith limit current)))
               < limit)%nat).
  { destruct (Nat.lt_ge_cases (List.length current) limit) as [H|H].
    - rewrite (Below H). cbn [fst]. specialize (Hd current). lia.
    - assert (Hne : current <> []) by (intros ->; cbn in H; lia).
      destruct (At H Hne) as [oldest [_ [_ [_ [_ Hlen]]]]].
      specialize (Hd (fst (Emergency.evictOldestWith limit current))). lia. }
  assert (R : (List.length current < limit)%nat ->
              snd (Emergency.evictOldestWith limit current) = []).
  { intros H. now rewrite (Below H). }
  destruct (Emergency.evictOldestWith limit current) as [kept removed].
  cbn [fst snd] in *. cbv zeta.
  destruct proofResult as [p|].
  - split; [rewrite length_app; cbn; lia|].
    split; [exact R|]. split; [reflexivity|]. split; [|discriminate].
    intros p' E. inversion E; subst p'.
    eexists. split; [reflexivity|]. split; [reflexivity|].
    cbn. repeat split; reflexivity.
  - split; [lia|]. split; [exact R|]. split; [reflexivity|].
    split; [discriminate|]. intros _. repeat split; reflexivity.
Qed.

Lemma emergency_addWitness_stays_within_the_limit_witness :
  (List.length
     (snd (fst (fst (Emergency.addWitnessWith 3 (Some Sample.helloProof) 1000 "d"
                       Sample.random (mkPosition 0 0) (fun c => c) "hello" None
                       Sample.trio)))) <= 3)%nat.
Proof.
  pose proof (emergency_addWitness_stays_within_the_limit
                3 (Some Sample.helloProof) 1000 "d" Sample.random (mkPosition 0 0)
                (fun c => c) "hello" None Sample.trio) as H.
  cbv zeta in H.
  destruct (Emergency.addWitnessWith 3 (Some Sample.helloProof) 1000 "d"
              Sample.random (mkPosition 0 0) (fun c => c) "hello" None Sample.trio)
    as [[[returned store] removed] puts].
  cbn [fst snd].
  apply H; [lia | cbn; lia | intros c; lia].
Defined.

Lemma StronglySorted_filter {A : Type} (R : A -> A -> Prop) (keep : A -> bool)
    (l : list A) :
  StronglySorted R l -> StronglySorted R (filter keep l).
Proof.
  induction 1 as [|a l Hs IH Hall]; cbn [filter]; [constructor|].
  destruct (keep a); [|exact IH].
  constructor; [exact IH|].
  rewrite Forall_forall in Hall |- *. intros x Hx.
  apply filter_In in Hx. now apply Hall.
Qed.

(** X27. The eviction that opens addWitness of the emergency store: below
    the limit the store is left as it is and no node is set to null.  At
    the limit, in a store that is not empty, exactly one id is set to null;
    it belongs to a witness created no later than any other; every witness
    with that id leaves the store and every other witness stays; and the
    store is left in the order of creation, whatever its order was. *)
Theorem emergency_eviction_removes_an_oldest :
  forall limit current,
    ((List.length current < limit)%nat ->
     Emergency.evictOldestWith limit current = (current, [])) /\
    ((limit <= List.length current)%nat -> current <> [] ->
     StronglySorted (fun a b => createdAt a <= createdAt b)
                    (fst (Emergency.evictOldestWith limit current)) /\
     exists oldest,
       In oldest current /\
       snd (Emergency.evictOldestWith limit current) = [id oldest] /\
       (forall v, In v current -> createdAt oldest <= createdAt v) /\
       (forall v, In v (fst (Emergency.evictOldestWith limit current)) <->
                  In v current /\ id v <> id oldest) /\
       (List.length (fst (Emergency.evictOldestWith limit current))
        < List.length current)%nat).
Proof.
  intros limit current.
  destruct (evictOldestWith_removes_an_oldest limit current) as [Below At].
  split; [exact Below|].
  intros H Hne. split; [|exact (At H Hne)].
  unfold Emergency.evictOldestWith. cbv zeta.
  apply Nat.leb_le in H. rewrite H.
  pose proof (sortWith_sorted Emergency.byCreatedAsc byCreatedAsc_trans
                byCreatedAsc_total current) as St.
  assert (Sc : StronglySorted (fun a b => createdAt a <= createdAt b)
                              (sortWith Emergency.byCreatedAsc current)).
  { induction St as [|a l Hs IH Hall]; constructor; [exact IH|].
    rewrite Forall_forall in Hall |- *. intros x Hx. specialize (Hall x Hx).
    unfold Emergency.byCreatedAsc in Hall. lia. }
  destruct (sortWith Emergency.byCreatedAsc current) as [|oldest rest];
    cbn [fst]; [constructor|].
  now apply StronglySorted_filter.
Qed.

Lemma emergency_eviction_removes_an_oldest_witness :
  exists oldest,
    In oldest Sample.trio /\
    snd (Emergency.evictOldestWith 3 Sample.trio) = [id oldest].
Proof.
  destruct (emergency_eviction_removes_an_oldest 3 Sample.trio) as [_ H].
  destruct H as [_ [oldest [Hin [Hs _]]]]; [cbn; lia | discriminate |].
  exists oldest. now split.
Defined.
